(** * client2.py: the query-to-tool-invocation pipeline of [MCPClient]

    A shallow embedding of [MCPClient.connect_to_server],
    [MCPClient.process_query] and [MCPClient.chat_loop], together with the
    part of Python's [re] and [str] that these methods use.

    Text is modelled as lists of 8-bit characters, read as the code points
    0..255 (Latin-1).  On that range [str.lower] works character by
    character, [\d] is exactly [0-9], and the IGNORECASE comparison of a
    pattern letter is equality after lowering. *)

From Stdlib Require Import Ascii String List NArith Arith Bool Lia DecimalString.
Import ListNotations.

Set Implicit Arguments.

(** ** Characters and strings *)

Definition str := list ascii.

Notation "« s »" := (list_ascii_of_string s) (at level 0, format "« s »").

Definition code (c : ascii) : N := N_of_ascii c.

Definition in_range (lo hi : N) (c : ascii) : bool :=
  ((lo <=? code c) && (code c <=? hi))%N.

(** [str.isspace] and the class [\s] on one character: tab, line feed,
    vertical tab, form feed, carriage return, the separators 0x1c..0x1f,
    space, NEL and the no-break space. *)
Definition isspace (c : ascii) : bool :=
  in_range 9 13 c || in_range 28 32 c || (code c =? 133)%N || (code c =? 160)%N.

(** The class [\d]: decimal digits. *)
Definition isdecimal (c : ascii) : bool := in_range 48 57 c.

Definition isupper (c : ascii) : bool :=
  in_range 65 90 c || (in_range 192 222 c && negb (code c =? 215)%N).

Definition lower_char (c : ascii) : ascii :=
  if isupper c then ascii_of_N (code c + 32) else c.

(** [s.lower()] *)
Definition lower (s : str) : str := map lower_char s.

Definition str_eqb (a b : str) : bool :=
  if list_eq_dec ascii_dec a b then true else false.

(** [s.startswith(p)] *)
Fixpoint startswith (p s : str) : bool :=
  match p, s with
  | [], _ => true
  | _ :: _, [] => false
  | a :: p', b :: s' => Ascii.eqb a b && startswith p' s'
  end.

(** [s.endswith(p)] *)
Definition endswith (s p : str) : bool := startswith (rev p) (rev s).

(** [p in s] *)
Fixpoint contains (p s : str) : bool :=
  startswith p s || match s with [] => false | _ :: s' => contains p s' end.

Fixpoint lstrip (s : str) : str :=
  match s with
  | c :: s' => if isspace c then lstrip s' else s
  | [] => []
  end.

Definition rstrip (s : str) : str := rev (lstrip (rev s)).

(** [s.strip()] *)
Definition strip (s : str) : str := rstrip (lstrip s).

(** [sep.join(parts)] *)
Fixpoint join (sep : str) (parts : list str) : str :=
  match parts with
  | [] => []
  | [p] => p
  | p :: ps => p ++ sep ++ join sep ps
  end.

(** [s.split(sep)] for a one-character separator. *)
Fixpoint split_on (sep : ascii) (s : str) : list str :=
  match s with
  | [] => [[]]
  | c :: s' =>
      if Ascii.eqb c sep then [] :: split_on sep s'
      else match split_on sep s' with
           | h :: t => (c :: h) :: t
           | [] => [[c]]
           end
  end.

Definition digit_value (c : ascii) : N := (code c - 48)%N.

(** The number that a run of decimal digits writes (an unbounded
    integer). *)
Definition int_of_digits (s : str) : N :=
  fold_left (fun acc c => (10 * acc + digit_value c)%N) s 0%N.

(** [str] of an int. *)
Definition decimal (n : N) : str :=
  list_ascii_of_string (NilZero.string_of_uint (N.to_uint n)).

(** ** The fragment of [re] used by the client

    Repetition is only ever applied to a one-character class
    ([\s+], [\d+], [\d{2}], [[^,]+?], [.+]). *)

Inductive charset : Type :=
| CAny                 (* .    : anything but a line feed *)
| CSpace               (* \s *)
| CDigit               (* \d *)
| CNot (c : ascii)     (* [^c] *)
| CChar (c : ascii).   (* a literal, compared under re.IGNORECASE *)

Definition in_set (cs : charset) (c : ascii) : bool :=
  match cs with
  | CAny => negb (Ascii.eqb c "010")
  | CSpace => isspace c
  | CDigit => isdecimal c
  | CNot x => negb (Ascii.eqb c x)
  | CChar x => Ascii.eqb (lower_char c) (lower_char x)
  end.

Inductive regex : Type :=
| Eps
| Chr (cs : charset)
| Cat (r1 r2 : regex)
| Alt (r1 r2 : regex)                       (* r1|r2, r1 tried first *)
| Grp (n : nat) (r : regex)                 (* capturing group number n *)
| Rep (greedy : bool) (lo : nat) (hi : option nat) (cs : charset)
| Eol.                                      (* $ *)

(** A literal word of the pattern. *)
Fixpoint lit (s : str) : regex :=
  match s with
  | [] => Eps
  | c :: s' => Cat (Chr (CChar c)) (lit s')
  end.

Definition plus (cs : charset) : regex := Rep true 1 None cs.       (* cs+  *)
Definition plus_lazy (cs : charset) : regex := Rep false 1 None cs. (* cs+? *)
Definition exactly (n : nat) (cs : charset) : regex := Rep true n (Some n) cs.
Definition opt (r : regex) : regex := Alt r Eps.                    (* (?:r)? *)

(** [$] without MULTILINE: the end of the text, or just before a final
    line feed. *)
Definition at_end (s : str) : bool :=
  match s with
  | [] => true
  | [c] => Ascii.eqb c "010"
  | _ => false
  end.

Definition caps := list (nat * str).

Definition may_take (hi : option nat) : bool :=
  match hi with Some 0 => false | _ => true end.

Definition dec_hi (hi : option nat) : option nat :=
  match hi with Some n => Some (pred n) | None => None end.

Section Matcher.
Variable A : Type.

Definition or_else (x y : option A) : option A :=
  match x with Some _ => x | None => y end.

(** Greedy repetition: take as many characters as allowed, give back one
    at a time. *)
Fixpoint rep_greedy (cs : charset) (lo : nat) (hi : option nat)
         (k : str -> option A) (s : str) : option A :=
  let stop := if lo =? 0 then k s else None in
  match s with
  | c :: s' =>
      if in_set cs c && may_take hi
      then or_else (rep_greedy cs (pred lo) (dec_hi hi) k s') stop
      else stop
  | [] => stop
  end.

(** Lazy repetition: stop as soon as the rest of the pattern matches. *)
Fixpoint rep_lazy (cs : charset) (lo : nat) (hi : option nat)
         (k : str -> option A) (s : str) : option A :=
  or_else (if lo =? 0 then k s else None)
    match s with
    | c :: s' =>
        if in_set cs c && may_take hi
        then rep_lazy cs (pred lo) (dec_hi hi) k s'
        else None
    | [] => None
    end.

(** Backtracking matcher: [k] is the rest of the pattern. *)
Fixpoint rmatch (r : regex) (k : str -> caps -> option A)
         (s : str) (g : caps) : option A :=
  match r with
  | Eps => k s g
  | Chr cs =>
      match s with
      | c :: s' => if in_set cs c then k s' g else None
      | [] => None
      end
  | Cat r1 r2 => rmatch r1 (rmatch r2 k) s g
  | Alt r1 r2 => or_else (rmatch r1 k s g) (rmatch r2 k s g)
  | Grp n r1 =>
      rmatch r1
        (fun s' g' => k s' ((n, firstn (length s - length s') s) :: g')) s g
  | Rep true lo hi cs => rep_greedy cs lo hi (fun s' => k s' g) s
  | Rep false lo hi cs => rep_lazy cs lo hi (fun s' => k s' g) s
  | Eol => if at_end s then k s g else None
  end.
End Matcher.

(** A match object: where it starts, the matched text, what follows it and
    the groups. *)
Record match_obj : Type := MkMatch {
  m_start : nat;
  m_text : str;
  m_rest : str;
  m_caps : caps
}.

Definition match_here (r : regex) (pos : nat) (s : str) : option match_obj :=
  rmatch r
    (fun s' g => Some (MkMatch pos (firstn (length s - length s') s) s' g))
    s [].

(** [re.search]: the first position at which the pattern matches. *)
Fixpoint search_from (r : regex) (pos : nat) (s : str) : option match_obj :=
  match match_here r pos s with
  | Some m => Some m
  | None =>
      match s with
      | [] => None
      | _ :: s' => search_from r (S pos) s'
      end
  end.

Definition search (r : regex) (s : str) : option match_obj := search_from r 0 s.

(** [m.group(n)] for a group that took part in the match. *)
Fixpoint group (n : nat) (g : caps) : str :=
  match g with
  | [] => []
  | (i, w) :: g' => if i =? n then w else group n g'
  end.

(** [re.findall] for a pattern without groups: the matched texts, each
    search resuming where the previous match ended (one character further
    after an empty match, which [\d+] never produces).  The fuel bounds the
    number of matches by the length of the text. *)
Fixpoint findall_fuel (fuel : nat) (r : regex) (s : str) : list str :=
  match fuel with
  | 0 => []
  | S fuel' =>
      match search r s with
      | None => []
      | Some m =>
          m_text m ::
            match m_text m, m_rest m with
            | [], [] => []
            | [], _ :: s' => findall_fuel fuel' r s'
            | _, s' => findall_fuel fuel' r s'
            end
      end
  end.

Definition findall (r : regex) (s : str) : list str :=
  findall_fuel (S (length s)) r s.

(** ** The patterns of [process_query] *)

(** [(?:name|named)\s+([^,]+?)(?:,|\s+nif|\s+date|\s+and|$)] *)
Definition name_re : regex :=
  Cat (Alt (lit «"name"») (lit «"named"»))
 (Cat (plus CSpace)
 (Cat (Grp 1 (plus_lazy (CNot ",")))
      (Alt (lit «","»)
      (Alt (Cat (plus CSpace) (lit «"nif"»))
      (Alt (Cat (plus CSpace) (lit «"date"»))
      (Alt (Cat (plus CSpace) (lit «"and"»))
           Eol)))))).

(** [nif\s+(\d+)] *)
Definition nif_re : regex :=
  Cat (lit «"nif"») (Cat (plus CSpace) (Grp 1 (plus CDigit))).

(** [date\s+of\s+birth\s+(\d{2}/\d{2}/\d{4})] *)
Definition date_re : regex :=
  Cat (lit «"date"») (Cat (plus CSpace)
 (Cat (lit «"of"») (Cat (plus CSpace)
 (Cat (lit «"birth"») (Cat (plus CSpace)
      (Grp 1 (Cat (exactly 2 CDigit) (Cat (lit «"/"»)
             (Cat (exactly 2 CDigit) (Cat (lit «"/"»)
                  (exactly 4 CDigit))))))))))).

(** [(?:and\s+)?address\s+(.+)$] *)
Definition addr_re : regex :=
  Cat (opt (Cat (lit «"and"») (plus CSpace)))
 (Cat (lit «"address"») (Cat (plus CSpace)
 (Cat (Grp 1 (plus CAny)) Eol))).

(** [\d+] *)
Definition digits_re : regex := plus CDigit.

(** ** Data of the client *)

(** A Python exception with its message.  [ValueError], [EOFError] and
    [OtherException] are instances of subclasses of [Exception];
    [KeyboardInterrupt], [CancelledError] (asyncio.CancelledError, thrown
    into the task at an [await] when it is cancelled) and [SystemExit]
    derive from [BaseException] only. *)
Inductive exn : Type :=
| ValueError (msg : str)
| EOFError
| OtherException (msg : str)    (* any other Exception a collaborator raises *)
| KeyboardInterrupt
| CancelledError
| SystemExit (status : N).

(** [isinstance(e, Exception)]: what [except Exception] catches. *)
Definition is_exception (e : exn) : bool :=
  match e with
  | ValueError _ | EOFError | OtherException _ => true
  | KeyboardInterrupt | CancelledError | SystemExit _ => false
  end.

(** [str(e)] *)
Definition exn_text (e : exn) : str :=
  match e with
  | ValueError m => m
  | EOFError => «"EOF when reading a line"»
  | OtherException m => m
  | KeyboardInterrupt => []
  | CancelledError => []
  | SystemExit status => decimal status
  end.

Inductive outcome (A : Type) : Type :=
| Ok (a : A)
| Raise (e : exn).

Arguments Ok {A} a.
Arguments Raise {A} e.

(** The interpreter's limit on the length of a decimal text that [int]
    converts ([sys.get_int_max_str_digits()], 4300 unless reconfigured);
    leading zeros count. *)
Definition int_max_str_digits : nat := 4300.

Definition int_limit_message (len : nat) : str :=
  «"Exceeds the limit (4300 digits) for integer string conversion: value has "»
  ++ decimal (N.of_nat len)
  ++ «" digits; use sys.set_int_max_str_digits() to increase the limit"».

(** [int(s)] on a run of decimal digits: [ValueError] beyond the limit. *)
Definition python_int (s : str) : outcome N :=
  if int_max_str_digits <? length s
  then Raise (ValueError (int_limit_message (length s)))
  else Ok (int_of_digits s).

(** [[int(num) for num in runs]]: the first conversion that raises ends
    the comprehension. *)
Fixpoint python_ints (runs : list str) : outcome (list N) :=
  match runs with
  | [] => Ok []
  | run :: runs' =>
      match python_int run with
      | Raise e => Raise e
      | Ok n =>
          match python_ints runs' with
          | Raise e => Raise e
          | Ok ns => Ok (n :: ns)
          end
      end
  end.

(** An entry of [response.tools]. *)
Record ToolDescriptor : Type := MkTool {
  tool_name : str;
  tool_description : str;
  tool_inputSchema : str
}.

(** What [call_tool] returns: its [content] attribute when it has one
    (already rendered as text), and the text of the object itself. *)
Record ToolResult : Type := MkResult {
  content : option str;
  result_text : str
}.

Inductive value : Type :=
| VStr (s : str)
| VInt (n : N).

(** [tool_args]: a dict, kept in insertion order. *)
Definition tool_args := list (str * value).

Inductive Intent : Type :=
| DirectAnswer
| InvokeCreateEmployee
| InvokeSumNumbers.

(** ** Argument extraction (the pure part of [process_query]) *)

Definition nl : str := ["010"%char].

(** Lines 94-95. *)
Definition name_match (query : str) : option match_obj := search name_re query.

Definition parse_employee_name (query : str) : str :=
  match name_match query with
  | Some m => strip (group 1 (m_caps m))
  | None => «"John Doe"»
  end.

(** Lines 99-100. *)
Definition parse_nif (query : str) : outcome N :=
  match search nif_re query with
  | Some m => python_int (group 1 (m_caps m))
  | None => Ok 0%N
  end.

(** Lines 104-109; unpacking [split('/')] into three names raises
    [ValueError] when there are not exactly three parts. *)
Definition parse_date_of_birth (query : str) : outcome str :=
  match search date_re query with
  | Some m =>
      match split_on "/" (group 1 (m_caps m)) with
      | [day; month; year] => Ok (year ++ «"-"» ++ month ++ «"-"» ++ day)
      | [] | [_] | [_; _] =>
          Raise (ValueError «"not enough values to unpack"»)
      | _ => Raise (ValueError «"too many values to unpack (expected 3)"»)
      end
  | None => Ok []
  end.

(** Lines 113-114. *)
Definition parse_address (query : str) : str :=
  match search addr_re query with
  | Some m => strip (group 1 (m_caps m))
  | None => []
  end.

(** The dict built at lines 91-114, in the order of its assignments. *)
Definition create_employee_args (employee_name : str) (nif : N)
           (date_of_birth address : str) : tool_args :=
  [(«"employee_name"», VStr employee_name);
   («"nif"», VInt nif);
   («"date_of_birth"», VStr date_of_birth);
   («"address"», VStr address)].

Definition name_warning : str :=
  «"Warning: Employee name not parsed correctly. Using default 'John Doe'."».

(** Lines 117-119. *)
Definition name_warnings (employee_name : str) : list str :=
  if match employee_name with [] => true | _ => false end
     || str_eqb employee_name «"John Doe"»
  then [name_warning] else [].

Definition defaults_warning : str :=
  «"Couldn't find two numbers in the query; using defaults 5 and 3."».

(** Lines 131-137: the arguments of [sum_numbers] and the warnings. *)
Definition parse_numbers (query : str) : outcome (list N) :=
  python_ints (findall digits_re query).

Definition sum_arguments (query : str) : outcome (tool_args * list str) :=
  match parse_numbers query with
  | Raise e => Raise e
  | Ok (n0 :: n1 :: _) =>
      Ok ([(«"number1"», VInt n0); («"number2"», VInt n1)], [])
  | Ok _ =>
      Ok ([(«"number1"», VInt 5); («"number2"», VInt 3)], [defaults_warning])
  end.

(** The tests of lines 89 and 128, in the order of the [if]/[elif]. *)
Definition wants_create_employee (query advisory : str) : bool :=
  contains «"employee"» (lower query)
  || contains «"create"» (lower query)
  || contains «"[Use tool: create_employee]"» advisory.

Definition wants_sum_numbers (query advisory : str) : bool :=
  contains «"[Use tool: sum_numbers]"» advisory
  || contains «"add"» (lower query)
  || contains «"sum"» (lower query)
  || contains «"plus"» (lower query).

Definition classify (query advisory : str) : Intent :=
  if wants_create_employee query advisory then InvokeCreateEmployee
  else if wants_sum_numbers query advisory then InvokeSumNumbers
  else DirectAnswer.

(** ** Effects: the collaborators and the observable trace *)

Inductive event : Type :=
| EvSpawn (command : str) (args : list str)   (* stdio_client(server_params) *)
| EvSession                                   (* ClientSession(stdio, write) *)
| EvInitialize                                (* session.initialize() *)
| EvListTools                                 (* session.list_tools() *)
| EvGenerate (prompt : str)                   (* gemini.generate_content(prompt).text *)
| EvCallTool (name : str) (args : tool_args)  (* session.call_tool(name, args) *)
| EvInput (prompt : str)                      (* input(prompt) *)
| EvPrint (text : str).                       (* print(text) *)

Inductive loop_status : Type :=
| AwaitingInput
| Terminated.

Section Client.
(** Everything outside the client: the server process, the model behind
    [generate_content], the terminal. *)
Variable World : Type.

Variable stdio_client : str -> list str -> World -> outcome unit * World.
Variable client_session : World -> outcome unit * World.
Variable session_initialize : World -> outcome unit * World.
Variable session_list_tools : World -> outcome (list ToolDescriptor) * World.
Variable session_call_tool :
  str -> tool_args -> World -> outcome ToolResult * World.
Variable generate_content : str -> World -> outcome str * World.
Variable console_input : str -> World -> outcome str * World.

(** Formatting done by the Python runtime. *)
Variable json_dumps : list ToolDescriptor -> str.   (* json.dumps(.., indent=2) *)
Variable repr_str : str -> str.                     (* repr of a str *)

Record state : Type := MkState {
  world : World;
  trace : list event
}.

Definition M (A : Type) : Type := state -> outcome A * state.

Definition ret {A} (a : A) : M A := fun st => (Ok a, st).

Definition bind {A B} (c : M A) (f : A -> M B) : M B :=
  fun st =>
    match c st with
    | (Ok a, st') => f a st'
    | (Raise e, st') => (Raise e, st')
    end.

Definition raise {A} (e : exn) : M A := fun st => (Raise e, st).

(** [try: c  except Exception as e: h e]: an exception that is not an
    instance of [Exception] passes through. *)
Definition try_except {A} (c : M A) (h : exn -> M A) : M A :=
  fun st =>
    match c st with
    | (Ok a, st') => (Ok a, st')
    | (Raise e, st') => if is_exception e then h e st' else (Raise e, st')
    end.

(** A call to a collaborator: recorded, then answered by the world. *)
Definition external {A} (ev : event)
           (f : World -> outcome A * World) : M A :=
  fun st =>
    let (r, w') := f (world st) in
    (r, MkState w' (trace st ++ [ev])).

Notation "x <- c1 ;; c2" := (bind c1 (fun x => c2))
  (at level 61, c1 at next level, right associativity).
Notation "c1 ;; c2" := (bind c1 (fun _ => c2))
  (at level 61, right associativity).

Definition print (text : str) : M unit :=
  external (EvPrint text) (fun w => (Ok tt, w)).

Definition lift {A} (o : outcome A) : M A := fun st => (o, st).

Definition format_value (v : value) : str :=
  match v with
  | VStr s => repr_str s
  | VInt n => decimal n
  end.

(** [str] of a dict. *)
Definition format_dict (d : tool_args) : str :=
  «"{"»
  ++ join «", "»
       (map (fun kv => repr_str (fst kv) ++ «": "» ++ format_value (snd kv)) d)
  ++ «"}"».

(** [str] of a list of [str]. *)
Definition format_list (l : list str) : str :=
  «"["» ++ join «", "» (map repr_str l) ++ «"]"».

(** *** [connect_to_server] *)

Definition connect_to_server (server_script_path : str) : M unit :=
  let is_python := endswith server_script_path «".py"» in
  let is_js := endswith server_script_path «".js"» in
  if negb (is_python || is_js) then
    raise (ValueError «"Server script must be a .py or .js file"»)
  else
    let command := if is_python then «"python"» else «"node"» in
    external (EvSpawn command [server_script_path])
             (stdio_client command [server_script_path]) ;;
    external EvSession client_session ;;
    external EvInitialize session_initialize ;;
    tools <- external EvListTools session_list_tools ;;
    print (nl ++ «"Connected to server with tools: "»
              ++ format_list (map tool_name tools)).

(** *** [process_query] *)

Definition tool_prompt (query : str) (available_tools : list ToolDescriptor)
  : str :=
  nl ++ «"        "» ++ query ++ nl
  ++ nl ++ «"        Available tools:"» ++ nl
  ++ «"        "» ++ json_dumps available_tools ++ nl
  ++ nl
  ++ «"        If the query requires a tool, include '[Use tool: <tool_name>]' in your response, followed by your explanation."»
  ++ nl
  ++ «"        Otherwise, provide a direct answer without tool references."»
  ++ nl ++ «"        "».

Definition calling (tool : str) (args : tool_args) (shown : str) : str :=
  «"[Calling tool "» ++ tool ++ «" with args "» ++ format_dict args ++ «"]"»
  ++ nl ++ «"Result: "» ++ shown.

(** [result.content if hasattr(result, 'content') else result] *)
Definition content_or_text (result : ToolResult) : str :=
  match content result with
  | Some c => c
  | None => result_text result
  end.

(** Lines 90-126. *)
Definition create_employee_branch (query : str) (final_text : list str)
  : M (list str) :=
  let tool := «"create_employee"» in
  let employee_name := parse_employee_name query in
  print («"Parsed name: "» ++ employee_name) ;;
  nif <- lift (parse_nif query) ;;
  print («"Parsed nif: "» ++ decimal nif) ;;
  date_of_birth <- lift (parse_date_of_birth query) ;;
  print («"Parsed date_of_birth: "» ++ date_of_birth) ;;
  let address := parse_address query in
  print («"Parsed address: "» ++ address) ;;
  let args := create_employee_args employee_name nif date_of_birth address in
  let final_text := final_text ++ name_warnings employee_name in
  result <- external (EvCallTool tool args) (session_call_tool tool args) ;;
  let final_text :=
    final_text ++ [calling tool args (content_or_text result)] in
  let follow_up_prompt :=
    query ++ nl ++ «"Tool result: "» ++ content_or_text result in
  follow_up <- external (EvGenerate follow_up_prompt)
                        (generate_content follow_up_prompt) ;;
  ret (final_text ++ [follow_up]).

(** Lines 129-145. *)
Definition sum_numbers_branch (query : str) (final_text : list str)
  : M (list str) :=
  let tool := «"sum_numbers"» in
  extracted <- lift (sum_arguments query) ;;
  let (args, warnings) := extracted in
  let final_text := final_text ++ warnings in
  result <- external (EvCallTool tool args) (session_call_tool tool args) ;;
  let final_text :=
    final_text ++ [calling tool args (result_text result)] in
  let follow_up_prompt :=
    query ++ nl ++ «"Tool result: "» ++ result_text result in
  follow_up <- external (EvGenerate follow_up_prompt)
                        (generate_content follow_up_prompt) ;;
  ret (final_text ++ [follow_up]).

(** The list [final_text] at line 147, for a connected client
    ([main] runs the loop only after [connect_to_server] has returned). *)
Definition response_segments (query : str) : M (list str) :=
  available_tools <- external EvListTools session_list_tools ;;
  let prompt := tool_prompt query available_tools in
  response_text <- external (EvGenerate prompt) (generate_content prompt) ;;
  let final_text := [response_text] in
  match classify query response_text with
  | InvokeCreateEmployee => create_employee_branch query final_text
  | InvokeSumNumbers => sum_numbers_branch query final_text
  | DirectAnswer => ret final_text
  end.

Definition process_query (query : str) : M str :=
  final_text <- response_segments query ;;
  ret (join nl final_text).

(** *** [chat_loop] *)

(** One turn of the [while True] loop; [Terminated] is the [break]. *)
Definition chat_turn : M loop_status :=
  try_except
    (line <- external (EvInput (nl ++ «"Query: "»))
                      (console_input (nl ++ «"Query: "»)) ;;
     let query := strip line in
     if str_eqb (lower query) «"quit"» then ret Terminated
     else
       response <- process_query query ;;
       print (nl ++ response) ;;
       ret AwaitingInput)
    (fun e =>
       print (nl ++ «"Error: "» ++ exn_text e) ;;
       ret AwaitingInput).

(** The loop, cut after [turns] turns. *)
Fixpoint chat_loop (turns : nat) : M loop_status :=
  match turns with
  | 0 => ret AwaitingInput
  | S turns' =>
      status <- chat_turn ;;
      match status with
      | Terminated => ret Terminated
      | AwaitingInput => chat_loop turns'
      end
  end.
End Client.

(** * The vocabulary of the properties *)

(** ** What a pattern matches *)

Definition fits (hi : option nat) (n : nat) : Prop :=
  match hi with Some h => n <= h | None => True end.

(** [den r w rest g]: [r] matches the text [w] when [rest] follows it, and
    binds the groups [g] (latest first). *)
Fixpoint den (r : regex) (w rest : str) (g : caps) : Prop :=
  match r with
  | Eps => w = [] /\ g = []
  | Chr cs => exists c, w = [c] /\ in_set cs c = true /\ g = []
  | Cat r1 r2 =>
      exists w1 w2 g1 g2,
        w = w1 ++ w2 /\ den r1 w1 (w2 ++ rest) g1 /\ den r2 w2 rest g2
        /\ g = g2 ++ g1
  | Alt r1 r2 => den r1 w rest g \/ den r2 w rest g
  | Grp n r1 => exists g1, den r1 w rest g1 /\ g = (n, w) :: g1
  | Rep _ lo hi cs =>
      forallb (in_set cs) w = true /\ lo <= length w /\ fits hi (length w)
      /\ g = []
  | Eol => w = [] /\ at_end rest = true /\ g = []
  end.

(** ** Texts *)

Definition spaces (ws : str) : Prop :=
  ws <> [] /\ forallb isspace ws = true.

Definition digits (n : nat) (w : str) : Prop :=
  length w = n /\ forallb isdecimal w = true.

Definition head_fails (P : ascii -> bool) (s : str) : Prop :=
  match s with
  | [] => True
  | c :: _ => P c = false
  end.

(** [p] stands somewhere in [s]. *)
Definition occurs (p s : str) : Prop :=
  exists pre suf, s = pre ++ p ++ suf.

(** [kw] stands somewhere in [query], in any letter case. *)
Definition mentions (kw query : str) : Prop :=
  exists pre mid suf, query = pre ++ mid ++ suf /\ lower mid = kw.

Definition not_digit (c : ascii) : bool := negb (isdecimal c).

(** [s] does not go on with a digit. *)
Definition no_digit_ahead (s : str) : Prop :=
  match s with
  | [] => True
  | c :: _ => isdecimal c = false
  end.

(** The maximal digit runs of a text, from left to right: a gap without
    digits, a run of digits that cannot be extended, and so on. *)
Inductive digit_runs : str -> list str -> Prop :=
| runs_none s :
    forallb not_digit s = true -> digit_runs s []
| runs_next gap run rest runs :
    forallb not_digit gap = true ->
    run <> [] -> forallb isdecimal run = true ->
    no_digit_ahead rest ->
    digit_runs rest runs ->
    digit_runs (gap ++ run ++ rest) (run :: runs).

(** ** The date of birth *)

(** [w] reads "date of birth DD/MM/YYYY": the three words in any letter
    case, separated by white space, then two, two and four digits. *)
Definition date_phrase (w dd mm yyyy : str) : Prop :=
  exists k1 s1 k2 s2 k3 s3,
    w = k1 ++ s1 ++ k2 ++ s2 ++ k3 ++ s3 ++ dd ++ «"/"» ++ mm ++ «"/"» ++ yyyy
    /\ lower k1 = «"date"» /\ spaces s1
    /\ lower k2 = «"of"» /\ spaces s2
    /\ lower k3 = «"birth"» /\ spaces s3
    /\ digits 2 dd /\ digits 2 mm /\ digits 4 yyyy.

(** The phrase stands in [query] after [pre] and before [rest]. *)
Definition date_occurrence (query pre dd mm yyyy rest : str) : Prop :=
  exists w, query = pre ++ w ++ rest /\ date_phrase w dd mm yyyy.

(** ** The employee name *)

Definition no_comma (body : str) : Prop :=
  forallb (fun c => negb (Ascii.eqb c ",")) body = true.

(** What ends the name: a comma; or white space and then the letters
    nif, date or and (any letter case); or the end of the query (also
    just before a final line feed). *)
Definition name_stop (stop rest : str) : Prop :=
  stop = «","»
  \/ (exists ws kw,
         stop = ws ++ kw /\ spaces ws
         /\ (lower kw = «"nif"» \/ lower kw = «"date"» \/ lower kw = «"and"»))
  \/ (stop = [] /\ at_end rest = true).

(** The text [after] begins with something that ends the name. *)
Definition ends_name (after : str) : Prop :=
  exists stop rest, after = stop ++ rest /\ name_stop stop rest.

(** After [pre], the query goes on with [kw], the letters name or named
    (any letter case, wherever they stand, also inside a longer word), the
    white space [ws], the text [body] without a comma, and then [after],
    which begins with something that ends the name. *)
Definition name_occurrence (query pre kw ws body after : str) : Prop :=
  query = pre ++ kw ++ ws ++ body ++ after
  /\ (lower kw = «"name"» \/ lower kw = «"named"»)
  /\ spaces ws /\ body <> [] /\ no_comma body /\ ends_name after.

(** The occurrence the name is read from: the leftmost one; among those,
    the one with the longest white space; and its text stops at the first
    place where the name can end. *)
Definition chosen_name_occurrence (query pre kw ws body after : str) : Prop :=
  name_occurrence query pre kw ws body after
  /\ (forall pre' kw' ws' body' after',
         name_occurrence query pre' kw' ws' body' after' ->
         length pre <= length pre')
  /\ (forall kw' ws' body' after',
         name_occurrence query pre kw' ws' body' after' ->
         length ws' <= length ws)
  /\ (forall b1 b2,
         body = b1 ++ b2 -> b1 <> [] -> b2 <> [] ->
         ~ ends_name (b2 ++ after)).

(** A letter, a digit or an underscore. *)
Definition is_word_char (c : ascii) : bool :=
  in_range 48 57 c || in_range 65 90 c || in_range 97 122 c
  || (code c =? 95)%N
  || (in_range 192 255 c && negb (code c =? 215)%N && negb (code c =? 247)%N).

(** [s] starts with [kw] in any letter case: what follows it. *)
Fixpoint after_prefix_ci (kw s : str) : option str :=
  match kw, s with
  | [], _ => Some s
  | _ :: _, [] => None
  | a :: kw', b :: s' =>
      if Ascii.eqb (lower_char a) (lower_char b) then after_prefix_ci kw' s'
      else None
  end.

(** [kw] stands in [s] as a word of its own: no word character right
    before it or right after it. *)
Fixpoint has_word_from (kw : str) (prev_is_word : bool) (s : str) : bool :=
  (negb prev_is_word
   && match after_prefix_ci kw s with
      | Some [] => true
      | Some (c :: _) => negb (is_word_char c)
      | None => false
      end)
  || match s with
     | [] => false
     | c :: s' => has_word_from kw (is_word_char c) s'
     end.

Definition has_word (kw s : str) : bool := has_word_from kw false s.

(** ** Classification *)

Definition create_employee_trigger (query advisory : str) : Prop :=
  mentions «"employee"» query \/ mentions «"create"» query
  \/ occurs «"[Use tool: create_employee]"» advisory.

Definition sum_numbers_trigger (query advisory : str) : Prop :=
  occurs «"[Use tool: sum_numbers]"» advisory
  \/ mentions «"add"» query \/ mentions «"sum"» query
  \/ mentions «"plus"» query.

(** ** Runs *)

Definition jane_smith_query : str :=
  «"Create employee named Jane Smith, nif 123456789, date of birth 05/03/1990 and address 10 Main St"».

(** A sum_numbers query whose first number has 4301 digits, and one whose
    first number has 4300. *)
Definition long_run_query : str :=
  «"add "» ++ repeat "1"%char 4301 ++ «" and 2"».

Definition limit_run_query : str :=
  «"add "» ++ repeat "1"%char 4300 ++ «" and 2"».

Definition query_prompt : str := nl ++ «"Query: "».

Definition error_line (e : exn) : str := nl ++ «"Error: "» ++ exn_text e.

(** The texts printed along a trace. *)
Fixpoint printed (tr : list event) : list str :=
  match tr with
  | [] => []
  | EvPrint text :: tr' => text :: printed tr'
  | _ :: tr' => printed tr'
  end.

Section RunVocabulary.
Variable World : Type.
Variable session_call_tool :
  str -> tool_args -> World -> outcome ToolResult * World.
Variable generate_content : str -> World -> outcome str * World.
Variable repr_str : str -> str.

Definition parse_prints (query : str) (nif : N) (dob : str) : list event :=
  [EvPrint («"Parsed name: "» ++ parse_employee_name query);
   EvPrint («"Parsed nif: "» ++ decimal nif);
   EvPrint («"Parsed date_of_birth: "» ++ dob);
   EvPrint («"Parsed address: "» ++ parse_address query)].

Definition follow_up_prompt (query shown : str) : str :=
  query ++ nl ++ «"Tool result: "» ++ shown.

(** What a tool branch does once the arguments and the text to show are
    fixed: the call, the trace segment, the second generation. *)
Definition invoke_and_summarise (tool : str) (args : tool_args)
           (shown : ToolResult -> str) (query : str) (final_text : list str)
           (st : state World) : outcome (list str) * state World :=
  match session_call_tool tool args (world st) with
  | (Raise e, w1) => (Raise e, MkState w1 (trace st ++ [EvCallTool tool args]))
  | (Ok result, w1) =>
      let p := follow_up_prompt query (shown result) in
      let tr := trace st ++ [EvCallTool tool args; EvGenerate p] in
      match generate_content p w1 with
      | (Raise e, w2) => (Raise e, MkState w2 tr)
      | (Ok follow_up, w2) =>
          (Ok (final_text
               ++ [calling repr_str tool args (shown result); follow_up]),
           MkState w2 tr)
      end
  end.

(** The state once the line has been read. *)
Definition after_input (st : state World) (w1 : World) : state World :=
  MkState w1 (trace st ++ [EvInput query_prompt]).

Definition after_print (st : state World) (text : str) : state World :=
  MkState (world st) (trace st ++ [EvPrint text]).
End RunVocabulary.

(** ** A scripted world for concrete runs

    The terminal hands out the lines of a list and then reports the end of
    the input; the model fails on prompts that contain "boom"; every tool
    call returns an object with a [content] attribute. *)
Module Demo.
Definition World : Type := list str.

Definition tools : list ToolDescriptor :=
  [MkTool «"create_employee"» «"Create an employee"» «"{}"»;
   MkTool «"sum_numbers"» «"Add two numbers"» «"{}"»].

Definition tool_result : ToolResult :=
  MkResult (Some «"[TextContent(text='22')]"»)
           «"meta=None content=[TextContent(text='22')] isError=False"».

Definition stdio_client (command : str) (args : list str) (w : World)
  : outcome unit * World := (Ok tt, w).
Definition client_session (w : World) : outcome unit * World := (Ok tt, w).
Definition session_initialize (w : World) : outcome unit * World :=
  (Ok tt, w).
Definition session_list_tools (w : World)
  : outcome (list ToolDescriptor) * World := (Ok tools, w).
Definition session_call_tool (name : str) (args : tool_args) (w : World)
  : outcome ToolResult * World := (Ok tool_result, w).
Definition generate_content (prompt : str) (w : World)
  : outcome str * World :=
  if contains «"boom"» prompt
  then (Raise (OtherException «"model unavailable"»), w)
  else (Ok «"Sure."», w).
Definition console_input (prompt : str) (w : World)
  : outcome str * World :=
  match w with
  | [] => (Raise EOFError, [])
  | line :: w' => (Ok line, w')
  end.
Definition json_dumps (l : list ToolDescriptor) : str := «"[]"».
Definition repr_str (s : str) : str := «"'"» ++ s ++ «"'"».

Definition start (lines : list str) : state World := MkState lines [].

Definition process_query (query : str) : M World str :=
  process_query session_list_tools session_call_tool generate_content
                json_dumps repr_str query.

Definition response_segments (query : str) : M World (list str) :=
  response_segments session_list_tools session_call_tool generate_content
                    json_dumps repr_str query.

Definition chat_loop (turns : nat) : M World loop_status :=
  chat_loop session_list_tools session_call_tool generate_content
            console_input json_dumps repr_str turns.

Definition connect_to_server (path : str) : M World unit :=
  connect_to_server stdio_client client_session session_initialize
                    session_list_tools repr_str path.
End Demo.

(** A collaborator that raises nothing but instances of [Exception]. *)
Definition raises_exceptions_only (World A : Type)
           (f : World -> outcome A * World) : Prop :=
  forall w e w', f w = (Raise e, w') -> is_exception e = true.

(** The scripted world again, but the task is cancelled while it awaits
    the list of tools: [asyncio.CancelledError] is thrown into it there. *)
Module Cancelled.
Definition session_list_tools (w : Demo.World)
  : outcome (list ToolDescriptor) * Demo.World := (Raise CancelledError, w).

Definition chat_loop (turns : nat) : M Demo.World loop_status :=
  chat_loop session_list_tools Demo.session_call_tool Demo.generate_content
            Demo.console_input Demo.json_dumps Demo.repr_str turns.
End Cancelled.

(** * Further vocabulary *)

(** ** The tax number and the address *)

(** After [pre], the query goes on with [kw], the letters nif (any letter
    case), the white space [ws], and the digits [run], which [rest] does
    not continue. *)
Definition nif_occurrence (query pre kw ws run rest : str) : Prop :=
  query = pre ++ kw ++ ws ++ run ++ rest
  /\ lower kw = «"nif"» /\ spaces ws
  /\ run <> [] /\ forallb isdecimal run = true /\ no_digit_ahead rest.

Definition no_newline (body : str) : Prop :=
  forallb (fun c => negb (Ascii.eqb c "010")) body = true.

(** After [pre], the query goes on with [kw], the letters address (any
    letter case), the white space [ws], and the text [body] on one line,
    which runs to the end of the query ([tail] is empty or one final line
    feed). *)
Definition address_occurrence (query pre kw ws body tail : str) : Prop :=
  query = pre ++ kw ++ ws ++ body ++ tail
  /\ lower kw = «"address"» /\ spaces ws
  /\ body <> [] /\ no_newline body /\ at_end tail = true.

(** A query whose tax number has 4301 digits, and one whose tax number
    has 4300. *)
Definition long_nif_query : str :=
  «"Create employee named Ann, nif "» ++ repeat "9"%char 4301.

Definition limit_nif_query : str :=
  «"Create employee named Ann, nif "» ++ repeat "9"%char 4300.

(** Two conversions one after the other: the first exception wins. *)
Definition numbers_then (first second : outcome (list N))
  : outcome (list N) :=
  match first with
  | Raise e => Raise e
  | Ok ns =>
      match second with
      | Raise e => Raise e
      | Ok ns' => Ok (ns ++ ns')
      end
  end.

(** ** Counting what a query does *)

Definition is_call (e : event) : bool :=
  match e with EvCallTool _ _ => true | _ => false end.

Definition is_generate (e : event) : bool :=
  match e with EvGenerate _ => true | _ => false end.

Definition count (p : event -> bool) (tr : list event) : nat :=
  length (filter p tr).

Definition date_or_empty (query : str) : str :=
  match parse_date_of_birth query with
  | Ok dob => dob
  | Raise _ => []
  end.

(** The tool and the arguments a query and its advisory text lead to. *)
(** The tool and the arguments a query and its advisory text lead to, or
    the exception that reading the arguments raises. *)
Definition planned_call (query advisory : str)
  : outcome (option (str * tool_args)) :=
  match classify query advisory with
  | DirectAnswer => Ok None
  | InvokeCreateEmployee =>
      match parse_nif query with
      | Raise e => Raise e
      | Ok nif =>
          Ok (Some («"create_employee"»,
                    create_employee_args (parse_employee_name query) nif
                                         (date_or_empty query)
                                         (parse_address query)))
      end
  | InvokeSumNumbers =>
      match sum_arguments query with
      | Raise e => Raise e
      | Ok (args, _) => Ok (Some («"sum_numbers"», args))
      end
  end.

Definition planned_warnings (query advisory : str) : list str :=
  match classify query advisory with
  | DirectAnswer => []
  | InvokeCreateEmployee => name_warnings (parse_employee_name query)
  | InvokeSumNumbers =>
      match sum_arguments query with
      | Ok (_, warnings) => warnings
      | Raise _ => []
      end
  end.

(** A scripted world in which every tool call fails and the input is
    closed. *)
Module Broken.
Definition World : Type := unit.

Definition session_list_tools (w : World)
  : outcome (list ToolDescriptor) * World := (Ok Demo.tools, w).
Definition session_call_tool (name : str) (args : tool_args) (w : World)
  : outcome ToolResult * World :=
  (Raise (OtherException «"tool failed"»), w).
Definition generate_content (prompt : str) (w : World)
  : outcome str * World := (Ok «"Sure."», w).

(** The input is closed: every read reports the end of the input. *)
Definition console_input (prompt : str) (w : World) : outcome str * World :=
  (Raise EOFError, w).

Definition process_query (query : str) : M World str :=
  process_query session_list_tools session_call_tool generate_content
                Demo.json_dumps Demo.repr_str query.

Definition chat_loop (turns : nat) : M World loop_status :=
  chat_loop session_list_tools session_call_tool generate_content
            console_input Demo.json_dumps Demo.repr_str turns.
End Broken.

(** ** Connecting *)

(** The command of line 37. *)
Definition launch_command (path : str) : str :=
  if endswith path «".py"» then «"python"» else «"node"».

(** The calls [connect_to_server] makes, in the order of lines 44-51. *)
Definition connect_calls (path : str) : list event :=
  [EvSpawn (launch_command path) [path]; EvSession; EvInitialize; EvListTools].

(** A scripted server that starts and then refuses the handshake. *)
Module Refused.
Definition session_initialize (w : Demo.World) : outcome unit * Demo.World :=
  (Raise (OtherException «"handshake refused"»), w).

Definition connect_to_server (path : str) : M Demo.World unit :=
  connect_to_server Demo.stdio_client Demo.client_session session_initialize
                    Demo.session_list_tools Demo.repr_str path.
End Refused.

(** * The entry point: [chat_loop] from its first line, [cleanup], [main] *)

(** What [main] does: steps of the client, building the client
    ([MCPClient()], which configures the two API clients) and closing the
    exit stack. *)
Inductive main_event : Type :=
| Client (e : event)
| Construct                 (* MCPClient() *)
| Close.                    (* self.exit_stack.aclose() *)

(** How a run of [main] stands. *)
Inductive main_end : Type :=
| Exited (code : N)         (* sys.exit(code) *)
| Returned                  (* main returned *)
| InLoop.                   (* the loop has not ended within the turns run *)

Definition usage_line : str :=
  «"Usage: python client.py <path_to_server_script>"».

Section Main.
Variable World : Type.
Variable client_init : World -> outcome unit * World.
Variable exit_stack_aclose : World -> outcome unit * World.
Variable stdio_client : str -> list str -> World -> outcome unit * World.
Variable client_session : World -> outcome unit * World.
Variable session_initialize : World -> outcome unit * World.
Variable session_list_tools : World -> outcome (list ToolDescriptor) * World.
Variable session_call_tool :
  str -> tool_args -> World -> outcome ToolResult * World.
Variable generate_content : str -> World -> outcome str * World.
Variable console_input : str -> World -> outcome str * World.
Variable json_dumps : list ToolDescriptor -> str.
Variable repr_str : str -> str.

Record main_state : Type := MkMain {
  main_world : World;
  main_trace : list main_event
}.

Definition MM (A : Type) : Type := main_state -> outcome A * main_state.

(** A step of the client inside [main]: its events join the trace of
    [main]. *)
Definition client_step {A} (c : M World A) : MM A :=
  fun ms =>
    let (r, st) := c (MkState (main_world ms) []) in
    (r, MkMain (world st) (main_trace ms ++ map Client (trace st))).

Definition lifecycle {A} (ev : main_event)
           (f : World -> outcome A * World) : MM A :=
  fun ms =>
    let (r, w) := f (main_world ms) in
    (r, MkMain w (main_trace ms ++ [ev])).

(** [cleanup], line 169. *)
Definition cleanup : MM unit := lifecycle Close exit_stack_aclose.

(** [chat_loop] from line 151: the two lines of the banner, then the loop
    (cut after [turns] turns). *)
Definition chat_loop_from_start (turns : nat) : M World loop_status :=
  bind (print (nl ++ «"MCP Client Started!"»))
       (fun _ =>
          bind (print «"Type your queries or 'quit' to exit."»)
               (fun _ =>
                  chat_loop session_list_tools session_call_tool
                            generate_content console_input json_dumps
                            repr_str turns)).

(** The [finally] of lines 180-181 when the body has raised [e]: the
    cleanup runs, and [e] goes on unless the cleanup raises itself. *)
Definition finally_after_raise (e : exn) : MM main_end :=
  fun ms =>
    match cleanup ms with
    | (Ok _, ms') => (Raise e, ms')
    | (Raise e', ms') => (Raise e', ms')
    end.

(** [main], lines 171-181, with [sys.argv] as [argv]. *)
Definition main (argv : list str) (turns : nat) : MM main_end :=
  fun ms =>
    if length argv <? 2 then
      let (_, ms1) := client_step (print usage_line) ms in
      (Ok (Exited 1), ms1)
    else
      match lifecycle Construct client_init ms with
      | (Raise e, ms1) => (Raise e, ms1)
      | (Ok _, ms1) =>
          match client_step
                  (connect_to_server stdio_client client_session
                                     session_initialize session_list_tools
                                     repr_str (nth 1 argv []))
                  ms1 with
          | (Raise e, ms2) => finally_after_raise e ms2
          | (Ok _, ms2) =>
              match client_step (chat_loop_from_start turns) ms2 with
              | (Raise e, ms3) => finally_after_raise e ms3
              | (Ok AwaitingInput, ms3) => (Ok InLoop, ms3)
              | (Ok Terminated, ms3) =>
                  match cleanup ms3 with
                  | (Ok _, ms4) => (Ok Returned, ms4)
                  | (Raise e', ms4) => (Raise e', ms4)
                  end
              end
          end
      end.
End Main.

Definition is_close (e : main_event) : bool :=
  match e with Close => true | _ => false end.

Definition is_construct (e : main_event) : bool :=
  match e with Construct => true | _ => false end.

(** A scripted start-up: building the client and closing the exit stack
    succeed; the rest is the scripted world. *)
Module Startup.
Definition client_init (w : Demo.World) : outcome unit * Demo.World :=
  (Ok tt, w).
Definition exit_stack_aclose (w : Demo.World) : outcome unit * Demo.World :=
  (Ok tt, w).

Definition main (argv : list str) (turns : nat) : MM Demo.World main_end :=
  main client_init exit_stack_aclose Demo.stdio_client Demo.client_session
       Demo.session_initialize Demo.session_list_tools Demo.session_call_tool
       Demo.generate_content Demo.console_input Demo.json_dumps Demo.repr_str
       argv turns.
End Startup.

(** * Properties *)

(** ** The backtracking matcher and what a pattern matches *)

Lemma or_else_some A (x y : option A) r :
  or_else x y = Some r -> x = Some r \/ (x = None /\ y = Some r).
Proof. destruct x; simpl; intros H; [left | right]; auto. Qed.

Lemma or_else_none A (x y : option A) :
  or_else x y = None -> x = None /\ y = None.
Proof. destruct x; simpl; intros H; [discriminate | auto]. Qed.

Lemma fits_step hi n :
  may_take hi = true -> fits (dec_hi hi) n -> fits hi (S n).
Proof.
  destruct hi as [[|h]|]; simpl; intros; try discriminate; auto; lia.
Qed.

Lemma fits_unstep hi n :
  fits hi (S n) -> may_take hi = true /\ fits (dec_hi hi) n.
Proof.
  destruct hi as [[|h]|]; simpl; intros; try lia; split; auto; lia.
Qed.

Section MatcherFacts.
Variable A : Type.

Lemma rep_greedy_sound cs (k : str -> option A) s :
  forall lo hi x,
    rep_greedy cs lo hi k s = Some x ->
    exists w rest,
      s = w ++ rest /\ forallb (in_set cs) w = true /\ lo <= length w
      /\ fits hi (length w) /\ k rest = Some x.
Proof.
  induction s as [|c s IH]; intros lo hi x H; simpl in H.
  - destruct (Nat.eqb_spec lo 0); [|discriminate].
    exists [], []. subst. destruct hi; simpl; repeat split; auto; lia.
  - assert (Hstop : (if lo =? 0 then k (c :: s) else None) = Some x ->
                    exists w rest, c :: s = w ++ rest
                      /\ forallb (in_set cs) w = true /\ lo <= length w
                      /\ fits hi (length w) /\ k rest = Some x).
    { intros E. destruct (Nat.eqb_spec lo 0); [|discriminate].
      exists [], (c :: s). subst.
      destruct hi; simpl; repeat split; auto; lia. }
    destruct (in_set cs c && may_take hi) eqn:T; [|auto].
    apply andb_prop in T. destruct T as [T1 T2].
    apply or_else_some in H. destruct H as [H|[_ H]]; [|auto].
    apply IH in H. destruct H as (w & rest & -> & F & L & B & K).
    exists (c :: w), rest. simpl. rewrite T1, F.
    repeat split; auto; [lia | now apply fits_step].
Qed.

Lemma rep_greedy_none cs (k : str -> option A) s :
  forall lo hi,
    rep_greedy cs lo hi k s = None ->
    forall w rest,
      s = w ++ rest -> forallb (in_set cs) w = true -> lo <= length w ->
      fits hi (length w) -> k rest = None.
Proof.
  induction s as [|c s IH]; intros lo hi H w rest E F L B.
  - destruct w; [|discriminate]. simpl in E. subst rest.
    simpl in H, L. destruct (Nat.eqb_spec lo 0); [auto | lia].
  - simpl in H. destruct w as [|c' w].
    + simpl in E. subst rest. simpl in L.
      assert (lo = 0) by lia. subst lo. simpl in H.
      destruct (in_set cs c && may_take hi); auto.
      apply or_else_none in H. tauto.
    + simpl in E. injection E as <- ->. simpl in F, L, B.
      apply andb_prop in F. destruct F as [F1 F2].
      apply fits_unstep in B. destruct B as [B1 B2].
      rewrite F1, B1 in H. simpl in H. apply or_else_none in H.
      destruct H as [H _].
      eapply IH; eauto. lia.
Qed.

Lemma rep_lazy_sound cs (k : str -> option A) s :
  forall lo hi x,
    rep_lazy cs lo hi k s = Some x ->
    exists w rest,
      s = w ++ rest /\ forallb (in_set cs) w = true /\ lo <= length w
      /\ fits hi (length w) /\ k rest = Some x.
Proof.
  induction s as [|c s IH]; intros lo hi x H; simpl in H;
    apply or_else_some in H; destruct H as [H|[_ H]]; try discriminate.
  - destruct (Nat.eqb_spec lo 0); [|discriminate].
    exists [], []. subst. destruct hi; simpl; repeat split; auto; lia.
  - destruct (Nat.eqb_spec lo 0); [|discriminate].
    exists [], (c :: s). subst. destruct hi; simpl; repeat split; auto; lia.
  - destruct (in_set cs c && may_take hi) eqn:T; [|discriminate].
    apply andb_prop in T. destruct T as [T1 T2].
    apply IH in H. destruct H as (w & rest & -> & F & L & B & K).
    exists (c :: w), rest. simpl. rewrite T1, F.
    repeat split; auto; [lia | now apply fits_step].
Qed.

Lemma rep_lazy_none cs (k : str -> option A) s :
  forall lo hi,
    rep_lazy cs lo hi k s = None ->
    forall w rest,
      s = w ++ rest -> forallb (in_set cs) w = true -> lo <= length w ->
      fits hi (length w) -> k rest = None.
Proof.
  induction s as [|c s IH]; intros lo hi H w rest E F L B;
    simpl in H; apply or_else_none in H; destruct H as [H1 H2].
  - destruct w; [|discriminate]. simpl in E. subst rest.
    simpl in L. destruct (Nat.eqb_spec lo 0); [auto | lia].
  - destruct w as [|c' w].
    + simpl in E. subst rest. simpl in L.
      assert (lo = 0) by lia. subst lo. auto.
    + simpl in E. injection E as <- ->. simpl in F, L, B.
      apply andb_prop in F. destruct F as [F1 F2].
      apply fits_unstep in B. destruct B as [B1 B2].
      rewrite F1, B1 in H2. simpl in H2.
      eapply IH; eauto. lia.
Qed.

(** The greedy repetition keeps the longest run after which the rest of
    the pattern succeeds. *)
Lemma rep_greedy_first cs (k : str -> option A) s :
  forall lo hi x,
    rep_greedy cs lo hi k s = Some x ->
    exists w rest,
      s = w ++ rest /\ forallb (in_set cs) w = true /\ lo <= length w
      /\ fits hi (length w) /\ k rest = Some x
      /\ forall w' rest',
           s = w' ++ rest' -> forallb (in_set cs) w' = true ->
           fits hi (length w') -> length w < length w' ->
           k rest' = None.
Proof.
  induction s as [|c s IH]; intros lo hi x H; simpl in H.
  - destruct (Nat.eqb_spec lo 0); [|discriminate].
    exists [], []. subst. repeat split; auto.
    + destruct hi; simpl; lia.
    + intros w' rest' E. symmetry in E. apply app_eq_nil in E.
      destruct E as [-> _]. simpl. lia.
  - destruct (in_set cs c && may_take hi) eqn:T.
    + apply andb_prop in T. destruct T as [T1 T2].
      apply or_else_some in H. destruct H as [H|[N H]].
      * apply IH in H. destruct H as (w & rest & -> & F & L & B & K & Max).
        exists (c :: w), rest. simpl. rewrite T1, F.
        repeat split; auto; [lia | now apply fits_step |].
        intros w' rest' E F' B' L'.
        destruct w' as [|c' w']; [simpl in L'; lia|].
        simpl in E. injection E as <- E. simpl in F', B', L'.
        apply andb_prop in F'. apply fits_unstep in B'.
        apply (Max w' rest'); auto; [tauto | tauto | lia].
      * destruct (Nat.eqb_spec lo 0); [|discriminate]. subst lo.
        exists [], (c :: s). repeat split; auto.
        { destruct hi; simpl; lia. }
        intros w' rest' E F' B' L'.
        destruct w' as [|c' w']; [simpl in L'; lia|].
        simpl in E. injection E as <- E. simpl in F', B'.
        apply andb_prop in F'. apply fits_unstep in B'.
        apply (@rep_greedy_none cs k s _ _ N w' rest'); auto;
          [tauto | simpl; lia | tauto].
    + destruct (Nat.eqb_spec lo 0); [|discriminate]. subst lo.
      exists [], (c :: s). repeat split; auto.
      { destruct hi; simpl; lia. }
      intros w' rest' E F' B' L'.
      destruct w' as [|c' w']; [simpl in L'; lia|].
      simpl in E. injection E as <- E. simpl in F', B'.
      apply andb_prop in F'. apply fits_unstep in B'.
      destruct F' as [F1 _]. destruct B' as [B1 _].
      rewrite F1, B1 in T. discriminate.
Qed.

(** The lazy repetition stops at the first length that lets the rest of
    the pattern succeed. *)
Lemma rep_lazy_first cs (k : str -> option A) s :
  forall lo hi x,
    rep_lazy cs lo hi k s = Some x ->
    exists w rest,
      s = w ++ rest /\ forallb (in_set cs) w = true /\ lo <= length w
      /\ fits hi (length w) /\ k rest = Some x
      /\ forall w1 w2,
           w = w1 ++ w2 -> w2 <> [] -> lo <= length w1 ->
           k (w2 ++ rest) = None.
Proof.
  induction s as [|c s IH]; intros lo hi x H; simpl in H;
    apply or_else_some in H; destruct H as [H|[N H]]; try discriminate.
  - destruct (Nat.eqb_spec lo 0); [|discriminate].
    exists [], []. subst. destruct hi; simpl; repeat split; auto; try lia;
      intros w1 w2 E; symmetry in E; apply app_eq_nil in E;
      intros; tauto.
  - destruct (Nat.eqb_spec lo 0); [|discriminate].
    exists [], (c :: s). subst.
    destruct hi; simpl; repeat split; auto; try lia;
      intros w1 w2 E; symmetry in E; apply app_eq_nil in E;
      intros; tauto.
  - destruct (in_set cs c && may_take hi) eqn:T; [|discriminate].
    apply andb_prop in T. destruct T as [T1 T2].
    apply IH in H. destruct H as (w & rest & -> & F & L & B & K & Min).
    exists (c :: w), rest. simpl. rewrite T1, F.
    repeat split; auto; [lia | now apply fits_step |].
    intros w1 w2 E W2 L1. destruct w1 as [|c' w1].
    + simpl in E. subst w2. simpl in L1.
      assert (lo = 0) by lia. subst lo. simpl in N. exact N.
    + simpl in E. injection E as <- E. simpl in L1.
      apply (Min w1 w2); auto. lia.
Qed.

Lemma firstn_consumed (w rest : str) :
  firstn (length (w ++ rest) - length rest) (w ++ rest) = w.
Proof.
  rewrite length_app, Nat.add_sub.
  rewrite firstn_app, Nat.sub_diag, firstn_all. simpl. apply app_nil_r.
Qed.

(** Whatever the matcher returns comes from a match of the pattern followed
    by a success of the rest. *)
Lemma rmatch_sound r :
  forall (k : str -> caps -> option A) s g0 x,
    rmatch r k s g0 = Some x ->
    exists w rest g,
      s = w ++ rest /\ den r w rest g /\ k rest (g ++ g0) = Some x.
Proof.
  induction r as [|cs|r1 IH1 r2 IH2|r1 IH1 r2 IH2|n r1 IH1|gr lo hi cs|];
    intros k s g0 x H; simpl in H.
  - exists [], s, []. simpl. auto.
  - destruct s as [|c s]; [discriminate|].
    destruct (in_set cs c) eqn:T; [|discriminate].
    exists [c], s, []. simpl. repeat split; eauto.
  - apply IH1 in H. destruct H as (w1 & rest1 & g1 & -> & D1 & H).
    apply IH2 in H. destruct H as (w2 & rest & g2 & -> & D2 & H).
    exists (w1 ++ w2), rest, (g2 ++ g1). rewrite <- !app_assoc.
    repeat split; auto. simpl. exists w1, w2, g1, g2. auto.
  - apply or_else_some in H. destruct H as [H|[_ H]].
    + apply IH1 in H. destruct H as (w & rest & g & -> & D & H).
      exists w, rest, g. simpl. auto.
    + apply IH2 in H. destruct H as (w & rest & g & -> & D & H).
      exists w, rest, g. simpl. auto.
  - apply IH1 in H. destruct H as (w & rest & g & -> & D & H).
    rewrite firstn_consumed in H.
    exists w, rest, ((n, w) :: g). simpl. repeat split; eauto.
  - destruct gr;
      [apply rep_greedy_sound in H | apply rep_lazy_sound in H];
      destruct H as (w & rest & -> & F & L & B & K);
      exists w, rest, []; simpl; repeat split; auto.
  - destruct (at_end s) eqn:E; [|discriminate].
    exists [], s, []. simpl. repeat split; auto.
Qed.

(** When the matcher fails, every match of the pattern is followed by a
    failure of the rest. *)
Lemma rmatch_none r :
  forall (k : str -> caps -> option A) s g0,
    rmatch r k s g0 = None ->
    forall w rest g,
      s = w ++ rest -> den r w rest g -> k rest (g ++ g0) = None.
Proof.
  induction r as [|cs|r1 IH1 r2 IH2|r1 IH1 r2 IH2|n r1 IH1|gr lo hi cs|];
    intros k s g0 H w rest g E D; simpl in H, D.
  - destruct D as [-> ->]. simpl in E. subst. auto.
  - destruct D as (c & -> & T & ->). simpl in E. subst s.
    rewrite T in H. auto.
  - destruct D as (w1 & w2 & g1 & g2 & -> & D1 & D2 & ->).
    rewrite <- app_assoc in E.
    specialize (IH1 _ _ _ H _ _ _ E D1).
    rewrite <- app_assoc.
    exact (IH2 _ _ _ IH1 _ _ _ eq_refl D2).
  - apply or_else_none in H. destruct H as [H1 H2].
    destruct D as [D|D]; eauto.
  - destruct D as (g1 & D & ->).
    specialize (IH1 _ _ _ H _ _ _ E D). simpl in IH1.
    subst s. rewrite firstn_consumed in IH1. auto.
  - destruct D as (F & L & B & ->).
    destruct gr;
      [eapply rep_greedy_none in H | eapply rep_lazy_none in H]; eauto.
  - destruct D as (-> & T & ->). simpl in E. subst s.
    rewrite T in H. auto.
Qed.
Lemma rmatch_cat_sound r1 r2 (k : str -> caps -> option A) s g0 x :
  rmatch (Cat r1 r2) k s g0 = Some x ->
  exists w rest g,
    s = w ++ rest /\ den r1 w rest g /\ rmatch r2 k rest (g ++ g0) = Some x.
Proof. simpl. apply rmatch_sound. Qed.

(** A lazily repeated group followed by [r]: the group takes the fewest
    characters after which [r] and the rest succeed. *)
Lemma rmatch_lazy_group_first n lo hi cs r
      (k : str -> caps -> option A) s g0 x :
  rmatch (Cat (Grp n (Rep false lo hi cs)) r) k s g0 = Some x ->
  exists body rest,
    s = body ++ rest /\ forallb (in_set cs) body = true
    /\ lo <= length body /\ fits hi (length body)
    /\ rmatch r k rest ((n, body) :: g0) = Some x
    /\ forall b1 b2,
         body = b1 ++ b2 -> b2 <> [] -> lo <= length b1 ->
         rmatch r k (b2 ++ rest) ((n, b1) :: g0) = None.
Proof.
  simpl. intros H. apply rep_lazy_first in H.
  destruct H as (body & rest & -> & F & L & B & K & Min).
  rewrite firstn_consumed in K.
  exists body, rest. repeat split; auto.
  intros b1 b2 -> B2 L1. specialize (Min b1 b2 eq_refl B2 L1).
  rewrite <- app_assoc in Min. rewrite firstn_consumed in Min. exact Min.
Qed.

(** A greedy repetition followed by [r]: it keeps the longest run after
    which [r] and the rest succeed. *)
Lemma rmatch_greedy_first lo hi cs r
      (k : str -> caps -> option A) s g0 x :
  rmatch (Cat (Rep true lo hi cs) r) k s g0 = Some x ->
  exists w rest,
    s = w ++ rest /\ forallb (in_set cs) w = true
    /\ lo <= length w /\ fits hi (length w)
    /\ rmatch r k rest g0 = Some x
    /\ forall w' rest',
         s = w' ++ rest' -> forallb (in_set cs) w' = true ->
         fits hi (length w') -> length w < length w' ->
         rmatch r k rest' g0 = None.
Proof. simpl. intros H. apply rep_greedy_first in H. exact H. Qed.

End MatcherFacts.

(** ** [re.search] finds the leftmost match *)

Lemma match_here_sound r pos s m :
  match_here r pos s = Some m ->
  s = m_text m ++ m_rest m /\ m_start m = pos
  /\ den r (m_text m) (m_rest m) (m_caps m).
Proof.
  unfold match_here. intros H. apply rmatch_sound in H.
  destruct H as (w & rest & g & -> & D & H).
  rewrite firstn_consumed, app_nil_r in H. injection H as <-. simpl. auto.
Qed.

Lemma match_here_none r pos s :
  match_here r pos s = None ->
  forall w rest g, s = w ++ rest -> ~ den r w rest g.
Proof.
  unfold match_here. intros H w rest g E D.
  pose proof (@rmatch_none _ r _ s [] H w rest g E D) as N. discriminate.
Qed.

Lemma search_from_sound r s :
  forall pos m,
    search_from r pos s = Some m ->
    exists pre,
      s = pre ++ m_text m ++ m_rest m
      /\ m_start m = pos + length pre
      /\ den r (m_text m) (m_rest m) (m_caps m)
      /\ forall pre' w' rest' g',
           s = pre' ++ w' ++ rest' -> den r w' rest' g' ->
           length pre <= length pre'.
Proof.
  induction s as [|c s IH]; intros pos m H; simpl in H.
  - destruct (match_here r pos []) eqn:E; [|discriminate].
    injection H as ->. apply match_here_sound in E.
    destruct E as (E & P & D). exists []. simpl.
    repeat split; auto; intros; lia.
  - destruct (match_here r pos (c :: s)) eqn:E.
    + injection H as ->. apply match_here_sound in E.
      destruct E as (E & P & D). exists []. simpl.
      repeat split; auto; intros; lia.
    + apply IH in H. destruct H as (pre & E1 & P & D & L).
      exists (c :: pre). simpl. repeat split; auto; [congruence | lia |].
      intros pre' w' rest' g' E2 D2.
      destruct pre' as [|c' pre'].
      * exfalso. simpl in E2. exact (@match_here_none r pos _ E _ _ _ E2 D2).
      * simpl in E2. injection E2 as _ E2. simpl.
        specialize (L _ _ _ _ E2 D2). lia.
Qed.

Lemma search_from_none r s :
  forall pos,
    search_from r pos s = None ->
    forall pre w rest g, s = pre ++ w ++ rest -> ~ den r w rest g.
Proof.
  induction s as [|c s IH]; intros pos H pre w rest g E D; simpl in H.
  - destruct (match_here r pos []) eqn:M; [discriminate|].
    destruct pre; [|discriminate]. simpl in E.
    exact (@match_here_none r pos _ M _ _ _ E D).
  - destruct (match_here r pos (c :: s)) eqn:M; [discriminate|].
    destruct pre as [|c' pre].
    + simpl in E. exact (@match_here_none r pos _ M _ _ _ E D).
    + simpl in E. injection E as _ E. exact (IH _ H _ _ _ _ E D).
Qed.

(** ** Reading the denotation of the pieces of the patterns *)

Lemma den_lit kw :
  forall w rest g, den (lit kw) w rest g <-> lower w = lower kw /\ g = [].
Proof.
  induction kw as [|c kw IH]; intros w rest g; simpl.
  - split.
    + intros [-> ->]. auto.
    + intros [E ->]. destruct w; [auto | discriminate].
  - split.
    + intros (w1 & w2 & g1 & g2 & -> & (x & -> & T & ->) & D & ->).
      apply IH in D. destruct D as [E ->].
      apply Ascii.eqb_eq in T. unfold lower in *. simpl. rewrite T, E. auto.
    + intros [E ->]. destruct w as [|x w]; [discriminate|].
      unfold lower in E. simpl in E. injection E as E1 E2.
      exists [x], w, [], []. repeat split; auto.
      * exists x. repeat split; auto. now apply Ascii.eqb_eq.
      * apply IH. auto.
Qed.

Lemma den_plus cs w rest g :
  den (plus cs) w rest g <->
  w <> [] /\ forallb (in_set cs) w = true /\ g = [].
Proof.
  simpl. split.
  - intros (F & L & _ & ->). repeat split; auto.
    destruct w; simpl in L; [lia | discriminate].
  - intros (N & F & ->). repeat split; auto.
    destruct w; simpl; [congruence | lia].
Qed.

Lemma den_plus_lazy cs w rest g :
  den (plus_lazy cs) w rest g <->
  w <> [] /\ forallb (in_set cs) w = true /\ g = [].
Proof. exact (den_plus cs w rest g). Qed.

Lemma den_spaces w rest g :
  den (plus CSpace) w rest g <-> spaces w /\ g = [].
Proof. rewrite den_plus. unfold spaces. simpl. tauto. Qed.

Lemma den_exactly n cs w rest g :
  den (exactly n cs) w rest g <->
  length w = n /\ forallb (in_set cs) w = true /\ g = [].
Proof.
  simpl. split.
  - intros (F & L & B & ->). repeat split; auto. lia.
  - intros (L & F & ->). repeat split; auto; lia.
Qed.

Ltac den_inv :=
  repeat match goal with
    | H : den (Cat _ _) _ _ _ |- _ =>
        let w1 := fresh "w" in
        let w2 := fresh "w" in
        let g1 := fresh "g" in
        let g2 := fresh "g" in
        destruct H as (w1 & w2 & g1 & g2 & -> & ? & ? & ->)
    | H : den (lit _) _ _ _ |- _ => apply den_lit in H; destruct H as [? ->]
    | H : den (plus CSpace) _ _ _ |- _ =>
        apply den_spaces in H; destruct H as [? ->]
    | H : den (plus _) _ _ _ |- _ =>
        apply den_plus in H; destruct H as (? & ? & ->)
    | H : den (exactly _ _) _ _ _ |- _ =>
        apply den_exactly in H; destruct H as (? & ? & ->)
    | H : den (Grp _ _) _ _ _ |- _ =>
        let g1 := fresh "g" in destruct H as (g1 & ? & ->)
    end.

Lemma den_cat r1 r2 w w1 w2 rest g g1 g2 :
  w = w1 ++ w2 -> g = g2 ++ g1 ->
  den r1 w1 (w2 ++ rest) g1 -> den r2 w2 rest g2 ->
  den (Cat r1 r2) w rest g.
Proof. intros -> -> D1 D2. simpl. exists w1, w2, g1, g2. auto. Qed.

(** Split off the text [a] matched by the head of a concatenation. *)
Ltac cat_intro a ga gb :=
  match goal with
  | |- den (Cat _ _) (a ++ ?b) _ _ =>
      apply den_cat with (w1 := a) (w2 := b) (g1 := ga) (g2 := gb);
      [reflexivity | reflexivity | | ]
  end.

Lemma lower_char_not_letter (x c : ascii) :
  lower_char x = c -> isupper c = false -> in_range 97 122 c = false ->
  in_range 224 254 c = false -> x = c.
Proof.
  unfold lower_char. destruct (isupper x) eqn:U; [|auto].
  intros <- _ L1 L2. exfalso.
  destruct x as [[] [] [] [] [] [] [] []]; vm_compute in U, L1, L2;
    discriminate.
Qed.

Lemma lower_slash w : lower w = «"/"» -> w = «"/"».
Proof.
  destruct w as [|x [|y w]]; try discriminate.
  unfold lower. simpl. intros H. injection H as H.
  apply lower_char_not_letter in H; auto. now subst.
Qed.

Lemma lower_comma w : lower w = «","» -> w = «","».
Proof.
  destruct w as [|x [|y w]]; try discriminate.
  unfold lower. simpl. intros H. injection H as H.
  apply lower_char_not_letter in H; auto. now subst.
Qed.

Lemma split_on_none sep a :
  forallb (fun c => negb (Ascii.eqb c sep)) a = true -> split_on sep a = [a].
Proof.
  induction a as [|c a IH]; simpl; [auto|].
  intros H. apply andb_prop in H. destruct H as [H1 H2].
  apply negb_true_iff in H1. rewrite H1, IH; auto.
Qed.

Lemma split_on_sep sep a b :
  forallb (fun c => negb (Ascii.eqb c sep)) a = true ->
  split_on sep (a ++ sep :: b) = a :: split_on sep b.
Proof.
  induction a as [|c a IH]; simpl.
  - now rewrite Ascii.eqb_refl.
  - intros H. apply andb_prop in H. destruct H as [H1 H2].
    apply negb_true_iff in H1. rewrite H1, IH; auto.
Qed.

Lemma digits_no_slash n w :
  digits n w -> forallb (fun c => negb (Ascii.eqb c "/")) w = true.
Proof.
  intros [_ F]. rewrite forallb_forall in *. intros c I.
  specialize (F c I). destruct (Ascii.eqb_spec c "/"); [|auto].
  subst. discriminate.
Qed.

Lemma span_unique P :
  forall a a' x x',
    forallb P a = true -> forallb P a' = true ->
    head_fails P x -> head_fails P x' ->
    a ++ x = a' ++ x' -> a = a' /\ x = x'.
Proof.
  induction a as [|c a IH]; intros a' x x' F F' X X' E.
  - destruct a' as [|c' a']; [auto|]. exfalso.
    simpl in E. subst x. simpl in X, F'.
    apply andb_prop in F'. destruct F' as [F' _]. congruence.
  - destruct a' as [|c' a'].
    + exfalso. simpl in E. subst x'. simpl in X', F.
      apply andb_prop in F. destruct F as [F _]. congruence.
    + simpl in E. injection E as <- E. simpl in F, F'.
      apply andb_prop in F. apply andb_prop in F'.
      destruct (IH a' x x') as [-> ->]; tauto.
Qed.

Lemma space_is_not_upper c : isspace c = true -> isupper c = false.
Proof.
  destruct c as [[] [] [] [] [] [] [] []]; vm_compute; congruence.
Qed.

Lemma lower_char_not_space c x :
  lower_char c = x -> isspace x = false -> isspace c = false.
Proof.
  intros E X. destruct (isspace c) eqn:S; [|reflexivity].
  unfold lower_char in E. rewrite (space_is_not_upper c S) in E. congruence.
Qed.

Lemma digit_is_not_space c : isdecimal c = true -> isspace c = false.
Proof.
  destruct c as [[] [] [] [] [] [] [] []]; vm_compute; congruence.
Qed.

Lemma app_eq_length (a a' x x' : str) :
  a ++ x = a' ++ x' -> length a = length a' -> a = a' /\ x = x'.
Proof.
  revert a'. induction a as [|c a IH]; intros [|c' a'] E L;
    try discriminate; [auto|].
  simpl in E, L. injection E as <- E. injection L as L.
  destruct (IH a' E L) as [-> ->]. auto.
Qed.

Lemma lower_length a b : lower a = b -> length a = length b.
Proof. intros <-. unfold lower. now rewrite length_map. Qed.

(** A word of the pattern does not begin with white space. *)
Lemma word_head_not_space k c kw x :
  lower k = c :: kw -> isspace c = false -> head_fails isspace (k ++ x).
Proof.
  destruct k as [|c1 k]; [discriminate|].
  unfold lower. simpl. intros E S. injection E as E _.
  exact (lower_char_not_space c1 E S).
Qed.

Lemma digits_head_not_space n w x :
  digits (S n) w -> head_fails isspace (w ++ x).
Proof.
  intros [L F]. destruct w as [|c w]; [discriminate|].
  simpl in *. apply andb_prop in F. destruct F as [F _].
  now apply digit_is_not_space.
Qed.

(** ** The date of birth (C6) *)

Lemma den_date w rest g :
  den date_re w rest g <->
  exists dd mm yyyy,
    date_phrase w dd mm yyyy /\ g = [(1, dd ++ «"/"» ++ mm ++ «"/"» ++ yyyy)].
Proof.
  unfold date_re. split.
  - intros H. den_inv.
    repeat match goal with
           | H : lower _ = lower «"/"» |- _ => apply lower_slash in H; subst
           end.
    match goal with
    | |- exists _ _ _, date_phrase (?k1 ++ ?s1 ++ ?k2 ++ ?s2 ++ ?k3 ++ ?s3
                                    ++ ?a ++ _ ++ ?b ++ _ ++ ?c) _ _ _ /\ _ =>
        exists a, b, c; split;
        [exists k1, s1, k2, s2, k3, s3; unfold digits, spaces in *;
         repeat split; try assumption; tauto
        | reflexivity]
    end.
  - intros (dd & mm & yyyy & (k1 & s1 & k2 & s2 & k3 & s3 & -> & K1 & S1 & K2
                               & S2 & K3 & S3 & (L1 & D1) & (L2 & D2) & (L3 & D3)) & ->).
    set (token := dd ++ «"/"» ++ mm ++ «"/"» ++ yyyy).
    cat_intro k1 (@nil (nat * str)) [(1, token)]; [apply den_lit; auto|].
    cat_intro s1 (@nil (nat * str)) [(1, token)]; [apply den_spaces; auto|].
    cat_intro k2 (@nil (nat * str)) [(1, token)]; [apply den_lit; auto|].
    cat_intro s2 (@nil (nat * str)) [(1, token)]; [apply den_spaces; auto|].
    cat_intro k3 (@nil (nat * str)) [(1, token)]; [apply den_lit; auto|].
    cat_intro s3 (@nil (nat * str)) [(1, token)]; [apply den_spaces; auto|].
    exists []. split; [|reflexivity]. unfold token.
    cat_intro dd (@nil (nat * str)) (@nil (nat * str));
      [apply den_exactly; auto|].
    cat_intro «"/"» (@nil (nat * str)) (@nil (nat * str));
      [apply den_lit; auto|].
    cat_intro mm (@nil (nat * str)) (@nil (nat * str));
      [apply den_exactly; auto|].
    cat_intro «"/"» (@nil (nat * str)) (@nil (nat * str));
      [apply den_lit; auto|].
    apply den_exactly; auto.
Qed.

(** At a given place the phrase can be read in one way only. *)
Lemma date_phrase_unique w dd mm yyyy rest w' dd' mm' yyyy' rest' :
  date_phrase w dd mm yyyy -> date_phrase w' dd' mm' yyyy' ->
  w ++ rest = w' ++ rest' ->
  dd = dd' /\ mm = mm' /\ yyyy = yyyy'.
Proof.
  intros (k1 & s1 & k2 & s2 & k3 & s3 & -> & K1 & S1 & K2 & S2 & K3 & S3
          & D & M & Y)
         (k1' & s1' & k2' & s2' & k3' & s3' & -> & K1' & S1' & K2' & S2' & K3'
          & S3' & D' & M' & Y') E.
  repeat rewrite <- app_assoc in E.
  apply app_eq_length in E;
    [|rewrite (@lower_length _ _ K1), (@lower_length _ _ K1'); reflexivity].
  destruct E as [_ E].
  apply (span_unique isspace) in E;
    [|apply S1 | apply S1'
     |eapply word_head_not_space; [exact K2 | reflexivity]
     |eapply word_head_not_space; [exact K2' | reflexivity]].
  destruct E as [_ E].
  apply app_eq_length in E;
    [|rewrite (@lower_length _ _ K2), (@lower_length _ _ K2'); reflexivity].
  destruct E as [_ E].
  apply (span_unique isspace) in E;
    [|apply S2 | apply S2'
     |eapply word_head_not_space; [exact K3 | reflexivity]
     |eapply word_head_not_space; [exact K3' | reflexivity]].
  destruct E as [_ E].
  apply app_eq_length in E;
    [|rewrite (@lower_length _ _ K3), (@lower_length _ _ K3'); reflexivity].
  destruct E as [_ E].
  apply (span_unique isspace) in E;
    [|apply S3 | apply S3'
     |eapply digits_head_not_space; exact D
     |eapply digits_head_not_space; exact D'].
  destruct E as [_ E].
  apply app_eq_length in E; [|destruct D as [-> _], D' as [-> _]; reflexivity].
  destruct E as [-> E].
  apply app_eq_length in E; [|reflexivity].
  destruct E as [_ E].
  apply app_eq_length in E; [|destruct M as [-> _], M' as [-> _]; reflexivity].
  destruct E as [-> E].
  apply app_eq_length in E; [|reflexivity].
  destruct E as [_ E].
  apply app_eq_length in E; [|destruct Y as [-> _], Y' as [-> _]; reflexivity].
  destruct E as [-> _]. auto.
Qed.

Lemma group_single n w : group n [(n, w)] = w.
Proof. simpl. now rewrite Nat.eqb_refl. Qed.

Lemma split_date dd mm yyyy :
  digits 2 dd -> digits 2 mm -> digits 4 yyyy ->
  split_on "/" (dd ++ «"/"» ++ mm ++ «"/"» ++ yyyy) = [dd; mm; yyyy].
Proof.
  intros D M Y. simpl.
  rewrite split_on_sep by (eapply digits_no_slash; eauto).
  rewrite split_on_sep by (eapply digits_no_slash; eauto).
  rewrite split_on_none by (eapply digits_no_slash; eauto).
  reflexivity.
Qed.

(** Unpacking the three parts of the date never fails. *)
Lemma parse_date_of_birth_ok query :
  exists dob, parse_date_of_birth query = Ok dob.
Proof.
  unfold parse_date_of_birth.
  destruct (search date_re query) as [m|] eqn:S; [|eauto].
  apply search_from_sound in S. destruct S as (pre & _ & _ & D & _).
  apply den_date in D. destruct D as (dd & mm & yyyy & P & G).
  rewrite G, group_single.
  destruct P as (k1 & s1 & k2 & s2 & k3 & s3 & _ & _ & _ & _ & _ & _ & _
                 & D1 & D2 & D3).
  rewrite split_date by assumption. eauto.
Qed.

(** C6. The date of birth is read from the first place where the query
    says "date of birth" (any letter case, white space between the words)
    followed by white space, two digits, a slash, two digits, a slash and
    four digits; the three numbers are re-ordered to YYYY-MM-DD, and the
    first such place decides the result.  When the query has no such place
    the date is the empty string.  The digits are not checked against the
    calendar: 99/99/9999 gives 9999-99-99. *)
Theorem date_of_birth_extraction :
  (forall query,
      (exists pre dd mm yyyy rest,
          date_occurrence query pre dd mm yyyy rest
          /\ (forall pre' dd' mm' yyyy' rest',
                 date_occurrence query pre' dd' mm' yyyy' rest' ->
                 length pre <= length pre')
          /\ parse_date_of_birth query
             = Ok (yyyy ++ «"-"» ++ mm ++ «"-"» ++ dd))
      \/ ((forall pre dd mm yyyy rest,
              ~ date_occurrence query pre dd mm yyyy rest)
          /\ parse_date_of_birth query = Ok []))
  /\ (forall query pre dd mm yyyy rest,
         date_occurrence query pre dd mm yyyy rest ->
         (forall pre' dd' mm' yyyy' rest',
             date_occurrence query pre' dd' mm' yyyy' rest' ->
             length pre <= length pre') ->
         parse_date_of_birth query = Ok (yyyy ++ «"-"» ++ mm ++ «"-"» ++ dd))
  /\ parse_date_of_birth «"date of birth 99/99/9999"» = Ok «"9999-99-99"»
  /\ parse_date_of_birth «"born 05/03/1990"» = Ok [].
Proof.
  assert (Cases : forall query,
             (exists pre dd mm yyyy rest,
                 date_occurrence query pre dd mm yyyy rest
                 /\ (forall pre' dd' mm' yyyy' rest',
                        date_occurrence query pre' dd' mm' yyyy' rest' ->
                        length pre <= length pre')
                 /\ parse_date_of_birth query
                    = Ok (yyyy ++ «"-"» ++ mm ++ «"-"» ++ dd))
             \/ ((forall pre dd mm yyyy rest,
                     ~ date_occurrence query pre dd mm yyyy rest)
                 /\ parse_date_of_birth query = Ok [])).
  { intros query.
    unfold parse_date_of_birth.
    destruct (search date_re query) as [m|] eqn:S.
    - left. apply search_from_sound in S.
      destruct S as (pre & E & _ & D & L).
      apply den_date in D.
      destruct D as (dd & mm & yyyy & P & G).
      exists pre, dd, mm, yyyy, (m_rest m). split; [|split].
      + exists (m_text m). auto.
      + intros pre' dd' mm' yyyy' rest' (w' & E' & P').
        apply (L pre' w' rest' [(1, dd' ++ «"/"» ++ mm' ++ «"/"» ++ yyyy')]);
          [assumption|].
        apply den_date. exists dd', mm', yyyy'. auto.
      + rewrite G, group_single.
        destruct P as (k1 & s1 & k2 & s2 & k3 & s3 & _ & _ & _ & _ & _ & _ & _
                       & D1 & D2 & D3).
        rewrite split_date by assumption. reflexivity.
    - right. split; [|reflexivity].
      intros pre dd mm yyyy rest (w & E & P).
      apply (search_from_none _ _ S pre w rest
               [(1, dd ++ «"/"» ++ mm ++ «"/"» ++ yyyy)]); [assumption|].
      apply den_date. exists dd, mm, yyyy. auto. }
  split; [exact Cases|]. split; [|split; reflexivity].
  intros query pre dd mm yyyy rest O L.
  destruct (Cases query)
    as [(pre0 & dd0 & mm0 & yyyy0 & rest0 & O0 & L0 & P)|[N _]];
    [|exfalso; exact (N _ _ _ _ _ O)].
  pose proof (L0 _ _ _ _ _ O) as L1. pose proof (L _ _ _ _ _ O0) as L2.
  destruct O as (w & E & Ph). destruct O0 as (w0 & E0 & Ph0).
  rewrite E in E0. apply app_eq_length in E0; [|lia].
  destruct E0 as [_ E0].
  destruct (date_phrase_unique _ _ Ph Ph0 E0) as (-> & -> & ->).
  exact P.
Qed.

(** ** The employee name (C2) *)

Lemma den_name_stop stop rest g :
  den (Alt (lit «","»)
      (Alt (Cat (plus CSpace) (lit «"nif"»))
      (Alt (Cat (plus CSpace) (lit «"date"»))
      (Alt (Cat (plus CSpace) (lit «"and"»))
           Eol)))) stop rest g
  <-> name_stop stop rest /\ g = [].
Proof.
  split.
  - intros [H|[H|[H|[H|H]]]]; den_inv.
    + apply lower_comma in H. subst. split; [left|]; auto.
    + split; [right; left|]; eauto 10.
    + split; [right; left|]; eauto 10.
    + split; [right; left|]; eauto 10.
    + destruct H as (-> & E & ->). split; [right; right|]; auto.
  - intros [[->|[(ws & kw & -> & S & [K|[K|K]])|[-> E]]] ->].
    + left. apply den_lit. auto.
    + right. left.
      cat_intro ws (@nil (nat * str)) (@nil (nat * str));
        [apply den_spaces | apply den_lit]; auto.
    + right. right. left.
      cat_intro ws (@nil (nat * str)) (@nil (nat * str));
        [apply den_spaces | apply den_lit]; auto.
    + right. right. right. left.
      cat_intro ws (@nil (nat * str)) (@nil (nat * str));
        [apply den_spaces | apply den_lit]; auto.
    + right. right. right. right. simpl. auto.
Qed.

Lemma den_name w rest g :
  den name_re w rest g <->
  exists kw ws body stop,
    w = kw ++ ws ++ body ++ stop
    /\ (lower kw = «"name"» \/ lower kw = «"named"»)
    /\ spaces ws /\ body <> [] /\ no_comma body /\ name_stop stop rest
    /\ g = [(1, body)].
Proof.
  unfold name_re. split.
  - intros (kw & w1 & g1 & g2 & -> & K & H & ->).
    destruct H as (ws & w2 & g3 & g4 & -> & S & H & ->).
    destruct H as (body & stop & g5 & g6 & -> & B & T & ->).
    apply den_name_stop in T. destruct T as [T ->].
    apply den_spaces in S. destruct S as [S ->].
    destruct B as (g7 & B & ->). apply den_plus_lazy in B.
    destruct B as (B1 & B2 & ->).
    exists kw, ws, body, stop. repeat split; auto.
    + destruct K as [K|K]; apply den_lit in K; [left | right]; tauto.
    + apply S.
    + apply S.
    + destruct K as [K|K]; apply den_lit in K; destruct K as [_ ->];
        reflexivity.
  - intros (kw & ws & body & stop & -> & K & S & B1 & B2 & T & ->).
    cat_intro kw (@nil (nat * str)) [(1, body)].
    { destruct K as [K|K]; [left | right]; apply den_lit; auto. }
    cat_intro ws (@nil (nat * str)) [(1, body)]; [apply den_spaces; auto|].
    cat_intro body [(1, body)] (@nil (nat * str)).
    { exists []. split; [|reflexivity]. apply den_plus_lazy. auto. }
    apply den_name_stop. auto.
Qed.

Lemma search_from_here r s :
  forall pos m,
    search_from r pos s = Some m ->
    exists pre tail,
      s = pre ++ tail /\ match_here r (pos + length pre) tail = Some m
      /\ forall pre' w' rest' g',
           s = pre' ++ w' ++ rest' -> den r w' rest' g' ->
           length pre <= length pre'.
Proof.
  induction s as [|c s IH]; intros pos m H; simpl in H.
  - destruct (match_here r pos []) eqn:E; [|discriminate].
    injection H as ->. exists [], []. simpl. rewrite Nat.add_0_r.
    repeat split; auto; intros; lia.
  - destruct (match_here r pos (c :: s)) eqn:E.
    + injection H as ->. exists [], (c :: s). simpl. rewrite Nat.add_0_r.
      repeat split; auto; intros; lia.
    + apply IH in H. destruct H as (pre & tail & -> & M & L).
      exists (c :: pre), tail. simpl. rewrite <- plus_n_Sm.
      repeat split; auto.
      intros pre' w' rest' g' E2 D2.
      destruct pre' as [|c' pre'].
      * exfalso. simpl in E2. exact (@match_here_none r pos _ E _ _ _ E2 D2).
      * simpl in E2. injection E2 as _ E2. simpl.
        specialize (L _ _ _ _ E2 D2). lia.
Qed.

Lemma ends_name_den after :
  ends_name after <->
  exists stop rest g,
    after = stop ++ rest
    /\ den (Alt (lit «","»)
           (Alt (Cat (plus CSpace) (lit «"nif"»))
           (Alt (Cat (plus CSpace) (lit «"date"»))
           (Alt (Cat (plus CSpace) (lit «"and"»))
                Eol)))) stop rest g.
Proof.
  split.
  - intros (stop & rest & -> & T). exists stop, rest, [].
    split; [reflexivity|]. apply den_name_stop. auto.
  - intros (stop & rest & g & -> & D). apply den_name_stop in D.
    exists stop, rest. tauto.
Qed.

Lemma name_kw_empty_caps kw rest g :
  den (Alt (lit «"name"») (lit «"named"»)) kw rest g ->
  (lower kw = «"name"» \/ lower kw = «"named"») /\ g = [].
Proof.
  intros [K|K]; apply den_lit in K; destruct K as [K ->]; auto.
Qed.

Lemma den_body_stop body after :
  body <> [] -> no_comma body -> ends_name after ->
  exists w rest g,
    body ++ after = w ++ rest
    /\ den (Cat (Grp 1 (Rep false 1 None (CNot ",")))
              (Alt (lit «","»)
              (Alt (Cat (plus CSpace) (lit «"nif"»))
              (Alt (Cat (plus CSpace) (lit «"date"»))
              (Alt (Cat (plus CSpace) (lit «"and"»))
                   Eol))))) w rest g.
Proof.
  intros B1 B2 (stop & rest & -> & T).
  exists (body ++ stop), rest, [(1, body)].
  split; [now rewrite app_assoc|].
  cat_intro body [(1, body)] (@nil (nat * str)).
  - exists []. split; [|reflexivity]. apply den_plus_lazy. auto.
  - apply den_name_stop. auto.
Qed.

(** A match of the name pattern at the head of [s]: its parts, the fact
    that the white space is the longest that leaves a name to read, and
    the fact that the name stops at the first place where it can. *)
Lemma match_here_name pos s m :
  match_here name_re pos s = Some m ->
  exists kw ws body stop,
    s = kw ++ ws ++ body ++ stop ++ m_rest m
    /\ (lower kw = «"name"» \/ lower kw = «"named"»)
    /\ spaces ws /\ body <> [] /\ no_comma body
    /\ name_stop stop (m_rest m)
    /\ m_caps m = [(1, body)]
    /\ (forall ws' body' after',
           ws ++ body ++ stop ++ m_rest m = ws' ++ body' ++ after' ->
           spaces ws' -> body' <> [] -> no_comma body' -> ends_name after' ->
           length ws' <= length ws)
    /\ forall b1 b2,
         body = b1 ++ b2 -> b1 <> [] -> b2 <> [] ->
         ~ ends_name (b2 ++ stop ++ m_rest m).
Proof.
  unfold match_here, name_re, plus_lazy, plus. intros H.
  apply rmatch_cat_sound in H. destruct H as (kw & r1 & g1 & E1 & K & H).
  apply name_kw_empty_caps in K. destruct K as [K ->].
  apply rmatch_greedy_first in H.
  destruct H as (ws & r2 & -> & S & LS & _ & H & Max).
  apply rmatch_lazy_group_first in H.
  destruct H as (body & r3 & -> & F & L & _ & H & Min).
  apply rmatch_sound in H. destruct H as (stop & rest & g4 & -> & T & H).
  injection H as <-. simpl.
  apply den_name_stop in T. destruct T as [T ->].
  exists kw, ws, body, stop. split; [exact E1|]. split; [exact K|].
  split; [split; [destruct ws; simpl in LS; [lia | discriminate] | exact S]|].
  split; [destruct body; simpl in L; [lia | discriminate]|].
  split; [exact F|]. split; [exact T|]. split; [reflexivity|]. split.
  - intros ws' body' after' E [_ S'] B1 B2 A.
    destruct (Nat.le_gt_cases (length ws') (length ws)) as [|Lt]; [assumption|].
    exfalso. specialize (Max ws' (body' ++ after') E S' I Lt).
    destruct (den_body_stop B1 B2 A) as (w' & rest' & g' & E' & D).
    pose proof (@rmatch_none _ _ _ _ _ Max w' rest' g' E' D) as N.
    discriminate.
  - intros b1 b2 -> B1 B2 E.
    apply ends_name_den in E. destruct E as (stop' & rest' & g' & E & D).
    assert (L1 : 1 <= length b1) by (destruct b1; simpl; [congruence | lia]).
    specialize (Min b1 b2 eq_refl B2 L1).
    pose proof (@rmatch_none _ _ _ _ _ Min stop' rest' g' E D) as N.
    discriminate.
Qed.

(** At a given place the letters are name or named, not both: after name
    comes white space, and the fifth letter of named is not white space. *)
Lemma name_kw_unique kw ws x kw' ws' x' :
  (lower kw = «"name"» \/ lower kw = «"named"») ->
  (lower kw' = «"name"» \/ lower kw' = «"named"») ->
  spaces ws -> spaces ws' ->
  kw ++ ws ++ x = kw' ++ ws' ++ x' ->
  kw = kw' /\ ws ++ x = ws' ++ x'.
Proof.
  assert (Mixed : forall k4 k5 w4 y4 y5,
             lower k4 = «"name"» -> lower k5 = «"named"» -> spaces w4 ->
             k4 ++ w4 ++ y4 = k5 ++ y5 -> False).
  { intros k4 k5 w4 y4 y5 K4 K5 [N4 S4] E.
    destruct k4 as [|a1 [|a2 [|a3 [|a4 [|a5 t]]]]]; try discriminate.
    destruct k5 as [|b1 [|b2 [|b3 [|b4 [|b5 [|b6 t]]]]]]; try discriminate.
    destruct w4 as [|c w4]; [congruence|].
    simpl in E. injection E as _ _ _ _ E _. subst c.
    simpl in S4. apply andb_prop in S4. destruct S4 as [S4 _].
    unfold lower in K5. simpl in K5. injection K5 as _ _ _ _ K5.
    rewrite (lower_char_not_space b5 K5 eq_refl) in S4. discriminate. }
  intros [K|K] [K'|K'] S S' E.
  - apply app_eq_length in E; [exact E|].
    now rewrite (@lower_length _ _ K), (@lower_length _ _ K').
  - exfalso. exact (Mixed _ _ _ _ _ K K' S E).
  - exfalso. symmetry in E. exact (Mixed _ _ _ _ _ K' K S' E).
  - apply app_eq_length in E; [exact E|].
    now rewrite (@lower_length _ _ K), (@lower_length _ _ K').
Qed.

(** Two texts that start at the same place, each followed by an end of the
    name and each stopping at the first one, are the same text. *)
Lemma first_stop_unique body after body' after' :
  body ++ after = body' ++ after' ->
  body <> [] -> body' <> [] -> ends_name after -> ends_name after' ->
  (forall b1 b2, body = b1 ++ b2 -> b1 <> [] -> b2 <> [] ->
                 ~ ends_name (b2 ++ after)) ->
  (forall b1 b2, body' = b1 ++ b2 -> b1 <> [] -> b2 <> [] ->
                 ~ ends_name (b2 ++ after')) ->
  body = body'.
Proof.
  intros E B B' A A' Min Min'.
  apply app_eq_app in E. destruct E as (l & [[E1 E2]|[E1 E2]]).
  - destruct l as [|c l]; [now rewrite app_nil_r in E1|].
    exfalso. apply (Min body' (c :: l) E1 B'); [discriminate|].
    rewrite <- E2. exact A'.
  - destruct l as [|c l]; [now rewrite app_nil_r in E1|].
    exfalso. apply (Min' body (c :: l) E1 B); [discriminate|].
    rewrite <- E2. exact A.
Qed.

Lemma name_warnings_cases n :
  (name_warnings n = [name_warning] /\ (n = [] \/ n = «"John Doe"»))
  \/ (name_warnings n = [] /\ n <> [] /\ n <> «"John Doe"»).
Proof.
  unfold name_warnings, str_eqb.
  destruct n as [|c n]; [left; auto|].
  destruct (list_eq_dec ascii_dec (c :: n) «"John Doe"») as [E|E].
  - left. simpl. auto.
  - right. simpl. repeat split; auto. discriminate.
Qed.

(** C2, as the code has it.  The employee name is read at the first place
    where the query has the letters name or named (any letter case, also
    inside a longer word such as surname), then white space, then a text
    without a comma that is followed by a comma, by white space and the
    letters nif, date or and, or by the end of the query; the text is taken
    up to the first such end and stripped, and this place decides the
    result.  Without such a place the name is John Doe.  When the name is
    John Doe there is exactly one name warning; when it is another,
    non-empty name there is none.  For "Create an employee" the record is
    John Doe, 0, the empty date and the empty address, with the warning. *)
Theorem employee_name_extraction :
  (forall query,
      ((exists pre kw ws body after,
           chosen_name_occurrence query pre kw ws body after
           /\ parse_employee_name query = strip body)
       \/ ((forall pre kw ws body after,
               ~ name_occurrence query pre kw ws body after)
           /\ parse_employee_name query = «"John Doe"»))
      /\ (parse_employee_name query = «"John Doe"» ->
          name_warnings (parse_employee_name query) = [name_warning])
      /\ (parse_employee_name query <> [] ->
          parse_employee_name query <> «"John Doe"» ->
          name_warnings (parse_employee_name query) = []))
  /\ (forall query pre kw ws body after,
         chosen_name_occurrence query pre kw ws body after ->
         parse_employee_name query = strip body)
  /\ (parse_employee_name «"Create an employee"» = «"John Doe"»
      /\ parse_nif «"Create an employee"» = Ok 0%N
      /\ parse_date_of_birth «"Create an employee"» = Ok []
      /\ parse_address «"Create an employee"» = []
      /\ name_warnings (parse_employee_name «"Create an employee"»)
         = [name_warning]).
Proof.
  assert (Cases : forall query,
             (exists pre kw ws body after,
                 chosen_name_occurrence query pre kw ws body after
                 /\ parse_employee_name query = strip body)
             \/ ((forall pre kw ws body after,
                     ~ name_occurrence query pre kw ws body after)
                 /\ parse_employee_name query = «"John Doe"»)).
  { intros query. unfold parse_employee_name, name_match, search.
    destruct (search_from name_re 0 query) as [m|] eqn:S.
    - left. apply search_from_here in S.
      destruct S as (pre & tail & -> & M & L).
      apply match_here_name in M.
      destruct M as (kw & ws & body & stop & -> & K & W & B1 & B2 & T & G
                     & Long & Min).
      exists pre, kw, ws, body, (stop ++ m_rest m).
      split; [|rewrite G, group_single; reflexivity].
      split; [|split; [|split]].
      + repeat split; auto; try apply W. exists stop, (m_rest m). auto.
      + intros pre' kw' ws' body' after' (E & K' & W' & B1' & B2'
                                          & stop' & rest' & -> & T').
        apply (L pre' (kw' ++ ws' ++ body' ++ stop') rest' [(1, body')]).
        * rewrite E. now rewrite <- !app_assoc.
        * apply den_name. exists kw', ws', body', stop'. auto 10.
      + intros kw' ws' body' after' (E & K' & W' & B1' & B2' & A').
        apply app_inv_head in E.
        destruct (name_kw_unique _ _ _ _ K K' W W' E) as [_ E2].
        exact (Long ws' body' after' E2 W' B1' B2' A').
      + exact Min.
    - right. split; [|reflexivity].
      intros pre kw ws body after (E & K & W & B1 & B2
                                   & stop & rest & -> & T).
      apply (search_from_none _ _ S pre (kw ++ ws ++ body ++ stop) rest
               [(1, body)]).
      + rewrite E. now rewrite <- !app_assoc.
      + apply den_name. exists kw, ws, body, stop. auto 10. }
  split; [|split; [|repeat split; reflexivity]].
  - intros query. split; [exact (Cases query)|]. split.
    + intros E. rewrite E. reflexivity.
    + intros N1 N2.
      destruct (name_warnings_cases (parse_employee_name query))
        as [[_ [E|E]]|[E _]]; [contradiction | contradiction | exact E].
  - intros query pre kw ws body after (O & Lm & Lg & Mn).
    destruct (Cases query)
      as [(pre0 & kw0 & ws0 & body0 & after0 & (O0 & Lm0 & Lg0 & Mn0) & P)
         |[N _]];
      [|exfalso; exact (N _ _ _ _ _ O)].
    pose proof (Lm _ _ _ _ _ O0) as L1. pose proof (Lm0 _ _ _ _ _ O) as L2.
    assert (E : pre ++ kw ++ ws ++ body ++ after
                = pre0 ++ kw0 ++ ws0 ++ body0 ++ after0).
    { destruct O as [<- _]. destruct O0 as [<- _]. reflexivity. }
    apply app_eq_length in E; [|lia]. destruct E as [<- E].
    pose proof (Lg _ _ _ _ O0) as L3. pose proof (Lg0 _ _ _ _ O) as L4.
    destruct O as (_ & K & W & B & _ & A).
    destruct O0 as (_ & K0 & W0 & B0 & _ & A0).
    destruct (name_kw_unique _ _ _ _ K K0 W W0 E) as [_ E2].
    apply app_eq_length in E2; [|lia]. destruct E2 as [_ E3].
    rewrite (first_stop_unique E3 B B0 A A0 Mn Mn0). exact P.
Qed.

Example has_word_examples :
  has_word «"name"» «"my NAME is Bob"» = true
  /\ has_word «"named"» «"an employee named Bob"» = true
  /\ has_word «"name"» «"rename it"» = false
  /\ has_word «"name"» «"names"» = false.
Proof. repeat split; reflexivity. Qed.

(** C2 as stated fails: in "Create employee with surname Smith" neither
    name nor named stands as a word, and yet the name is read, after the
    letters name inside surname, with no warning. *)
Lemma employee_name_read_inside_a_word :
  has_word «"name"» «"Create employee with surname Smith"» = false
  /\ has_word «"named"» «"Create employee with surname Smith"» = false
  /\ parse_employee_name «"Create employee with surname Smith"» = «"Smith"»
  /\ name_warnings (parse_employee_name «"Create employee with surname Smith"»)
     = [].
Proof. repeat split; reflexivity. Qed.

(** ** The arguments of [sum_numbers] (C4) *)

Lemma match_here_digits pos s m :
  match_here digits_re pos s = Some m ->
  s = m_text m ++ m_rest m /\ m_text m <> []
  /\ forallb isdecimal (m_text m) = true /\ no_digit_ahead (m_rest m).
Proof.
  unfold match_here, digits_re, plus. simpl rmatch. intros H.
  apply rep_greedy_first in H.
  destruct H as (w & rest & E & F & L & _ & K & Max).
  subst s. rewrite firstn_consumed in K. injection K as <-. simpl.
  repeat split; auto.
  - destruct w; simpl in L; [lia | discriminate].
  - destruct rest as [|c rest]; simpl; [auto|].
    destruct (isdecimal c) eqn:D; [exfalso | reflexivity].
    assert (N := Max (w ++ [c]) rest).
    rewrite <- app_assoc in N. simpl in N.
    rewrite forallb_app, F, length_app in N. simpl in N. rewrite D in N.
    specialize (N eq_refl eq_refl I). discriminate N. lia.
Qed.

Lemma den_one_digit c rest : isdecimal c = true -> den digits_re [c] rest [].
Proof. intros D. simpl. rewrite D. repeat split; auto. Qed.

Lemma no_digit_before_match query pre :
  (forall pre' w' rest' g',
      query = pre' ++ w' ++ rest' -> den digits_re w' rest' g' ->
      length pre <= length pre') ->
  forall tail, query = pre ++ tail -> forallb not_digit pre = true.
Proof.
  intros L tail E. apply forallb_forall. intros c I.
  unfold not_digit. destruct (isdecimal c) eqn:D; [exfalso | reflexivity].
  apply in_split in I. destruct I as (p1 & p2 & ->).
  specialize (L p1 [c] (p2 ++ tail) [] ).
  rewrite length_app in L. simpl in L.
  assert (length p1 + S (length p2) <= length p1); [|lia].
  apply L; [|now apply den_one_digit].
  rewrite E, <- app_assoc. reflexivity.
Qed.

Lemma findall_fuel_digit_runs :
  forall fuel s,
    length s < fuel -> digit_runs s (findall_fuel fuel digits_re s).
Proof.
  induction fuel as [|fuel IH]; intros s L; [lia|].
  simpl. destruct (search digits_re s) as [m|] eqn:S.
  - apply search_from_here in S. destruct S as (pre & tail & -> & M & Lm).
    apply match_here_digits in M. destruct M as (-> & N & F & A).
    assert (G : forallb not_digit pre = true)
      by (eapply no_digit_before_match; eauto).
    rewrite !length_app in L.
    assert (R : digit_runs (m_rest m) (findall_fuel fuel digits_re (m_rest m))).
    { apply IH. destruct (m_text m); simpl in L; [congruence | lia]. }
    destruct (m_text m) as [|c t] eqn:T; [congruence|].
    apply runs_next; auto.
  - apply runs_none. apply forallb_forall. intros c I.
    unfold not_digit. destruct (isdecimal c) eqn:D; [exfalso | reflexivity].
    apply in_split in I. destruct I as (p1 & p2 & ->).
    exact (search_from_none _ _ S p1 [c] p2 [] eq_refl (@den_one_digit c p2 D)).
Qed.

Lemma findall_digit_runs query : digit_runs query (findall digits_re query).
Proof. apply findall_fuel_digit_runs. lia. Qed.

(** A text has one list of maximal digit runs. *)
Lemma digit_runs_unique s r1 :
  digit_runs s r1 -> forall r2, digit_runs s r2 -> r1 = r2.
Proof.
  induction 1 as [s F|gap run rest runs G N D A R IH]; intros r2 H2.
  - inversion H2 as [|gap run rest runs G N D A R E]; [reflexivity|].
    exfalso. subst. rewrite !forallb_app in F.
    apply andb_prop in F. destruct F as [_ F].
    apply andb_prop in F. destruct F as [F _].
    destruct run as [|c run]; [congruence|]. simpl in F, D. unfold not_digit in F.
    apply andb_prop in F. apply andb_prop in D.
    destruct F as [F _]. destruct D as [D _]. rewrite D in F. discriminate.
  - inversion H2 as [s' F E|gap' run' rest' runs' G' N' D' A' R' E].
    + exfalso. subst. rewrite !forallb_app in F.
      apply andb_prop in F. destruct F as [_ F].
      apply andb_prop in F. destruct F as [F _].
      destruct run as [|c run]; [congruence|]. simpl in F, D.
      unfold not_digit in F.
      apply andb_prop in F. apply andb_prop in D.
      destruct F as [F _]. destruct D as [D _]. rewrite D in F. discriminate.
    + assert (X : head_fails not_digit (run ++ rest)).
      { destruct run as [|c run]; [congruence|]. simpl in *. unfold not_digit.
        apply andb_prop in D. destruct D as [-> _]. reflexivity. }
      assert (X' : head_fails not_digit (run' ++ rest')).
      { destruct run' as [|c run']; [congruence|]. simpl in *. unfold not_digit.
        apply andb_prop in D'. destruct D' as [-> _]. reflexivity. }
      destruct (span_unique not_digit gap gap' _ _ G G' X X' (eq_sym E))
        as [_ E2].
      destruct (span_unique isdecimal run run' rest rest' D D' A A' E2)
        as [-> ->].
      f_equal. apply IH. assumption.
Qed.

Lemma int_of_digits_snoc run d :
  int_of_digits (run ++ [d]) = (10 * int_of_digits run + digit_value d)%N.
Proof. unfold int_of_digits. rewrite fold_left_app. reflexivity. Qed.

(** [int] within and beyond the interpreter's limit. *)
Lemma python_int_ok (run : str) :
  length run <= int_max_str_digits -> python_int run = Ok (int_of_digits run).
Proof.
  intros L. unfold python_int.
  destruct (Nat.ltb_spec int_max_str_digits (length run)); [lia | reflexivity].
Qed.

Lemma python_int_long (run : str) :
  int_max_str_digits < length run ->
  python_int run = Raise (ValueError (int_limit_message (length run))).
Proof.
  intros L. unfold python_int.
  destruct (Nat.ltb_spec int_max_str_digits (length run)); [reflexivity | lia].
Qed.

Lemma python_ints_ok (runs : list str) :
  Forall (fun run : str => length run <= int_max_str_digits) runs ->
  python_ints runs = Ok (map int_of_digits runs).
Proof.
  induction 1 as [|run runs L _ IH]; [reflexivity|].
  cbn [python_ints map]. rewrite (@python_int_ok run L), IH. reflexivity.
Qed.

Lemma python_ints_long (before : list str) (run : str) (after : list str) :
  Forall (fun r : str => length r <= int_max_str_digits) before ->
  int_max_str_digits < length run ->
  python_ints (before ++ run :: after)
  = Raise (ValueError (int_limit_message (length run))).
Proof.
  intros F L. induction F as [|r before Lr _ IH].
  - cbn [app python_ints]. rewrite (@python_int_long run L). reflexivity.
  - cbn [app python_ints]. rewrite (@python_int_ok r Lr), IH. reflexivity.
Qed.

(** Either every run is within the limit, or there is a first one beyond
    it. *)
Lemma first_long_run (runs : list str) :
  Forall (fun run : str => length run <= int_max_str_digits) runs
  \/ exists (before : list str) (run : str) (after : list str),
       runs = before ++ run :: after
       /\ Forall (fun r : str => length r <= int_max_str_digits) before
       /\ int_max_str_digits < length run.
Proof.
  induction runs as [|r runs [IH|(before & run & after & -> & F & L)]].
  - left. constructor.
  - destruct (Nat.le_gt_cases (length r) int_max_str_digits) as [Lr|Lr].
    + left. constructor; assumption.
    + right. exists [], r, runs. split; [reflexivity|]. split; [constructor|].
      exact Lr.
  - destruct (Nat.le_gt_cases (length r) int_max_str_digits) as [Lr|Lr].
    + right. exists (r :: before), run, after.
      split; [reflexivity|]. split; [constructor; assumption | exact L].
    + right. exists [], r, (before ++ run :: after).
      split; [reflexivity|]. split; [constructor | exact Lr].
Qed.

Lemma sum_arguments_cases query :
  (exists e, parse_numbers query = Raise e /\ sum_arguments query = Raise e)
  \/ (exists n0 n1 more,
         parse_numbers query = Ok (n0 :: n1 :: more)
         /\ sum_arguments query
            = Ok ([(«"number1"», VInt n0); («"number2"», VInt n1)], []))
  \/ (exists numbers,
         parse_numbers query = Ok numbers /\ length numbers < 2
         /\ sum_arguments query
            = Ok ([(«"number1"», VInt 5); («"number2"», VInt 3)],
                  [defaults_warning])).
Proof.
  unfold sum_arguments.
  destruct (parse_numbers query) as [[|n0 [|n1 more]]|e].
  - right. right. exists []. simpl. auto.
  - right. right. exists [n0]. simpl. auto.
  - right. left. exists n0, n1, more. auto.
  - left. exists e. auto.
Qed.

Section SumBranch.
Variable World : Type.
Variable session_call_tool :
  str -> tool_args -> World -> outcome ToolResult * World.
Variable generate_content : str -> World -> outcome str * World.
Variable repr_str : str -> str.

Local Abbreviation branch :=
  (sum_numbers_branch session_call_tool generate_content repr_str).

Lemma sum_numbers_branch_raise query final_text (st : state World) e :
  sum_arguments query = Raise e -> branch query final_text st = (Raise e, st).
Proof.
  intros E. unfold sum_numbers_branch, bind, lift. rewrite E. reflexivity.
Qed.

Lemma sum_numbers_branch_calls query final_text (st : state World)
      args warnings :
  sum_arguments query = Ok (args, warnings) ->
  exists r st' later,
    branch query final_text st = (r, st')
    /\ trace st' = trace st ++ EvCallTool «"sum_numbers"» args :: later.
Proof.
  intros E. unfold sum_numbers_branch, bind, lift, external, ret. rewrite E.
  cbv beta iota zeta.
  match goal with
  | |- context [session_call_tool ?a ?b ?c] =>
      destruct (session_call_tool a b c) as [[res|e] w1]
  end; cbv beta iota zeta; cbn [world trace].
  - match goal with
    | |- context [generate_content ?p ?w] =>
        destruct (generate_content p w) as [[txt|e] w2]
    end; cbv beta iota zeta;
      do 3 eexists; (split; [reflexivity|]); cbn [trace];
      rewrite <- app_assoc; reflexivity.
  - do 3 eexists. split; [reflexivity|]. reflexivity.
Qed.

Lemma sum_numbers_branch_ok query final_text (st : state World)
      args warnings result w1 follow_up w2 :
  sum_arguments query = Ok (args, warnings) ->
  session_call_tool «"sum_numbers"» args (world st) = (Ok result, w1) ->
  generate_content (follow_up_prompt query (result_text result)) w1
  = (Ok follow_up, w2) ->
  branch query final_text st
  = (Ok (final_text ++ warnings
         ++ [calling repr_str «"sum_numbers"» args (result_text result);
             follow_up]),
     MkState w2
       (trace st
        ++ [EvCallTool «"sum_numbers"» args;
            EvGenerate (follow_up_prompt query (result_text result))])).
Proof.
  intros E C G. unfold sum_numbers_branch, bind, lift, external, ret.
  rewrite E. cbv beta iota zeta. rewrite C. cbv beta iota zeta.
  cbn [world trace]. unfold follow_up_prompt in G. rewrite G.
  cbv beta iota zeta. cbn [world trace].
  rewrite <- !app_assoc. reflexivity.
Qed.
End SumBranch.

Lemma long_run_query_runs :
  digit_runs long_run_query [repeat "1"%char 4301; «"2"»].
Proof.
  unfold long_run_query.
  apply (@runs_next «"add "» (repeat "1"%char 4301) «" and 2"» [«"2"»]).
  - reflexivity.
  - discriminate.
  - vm_compute. reflexivity.
  - reflexivity.
  - apply (@runs_next «" and "» «"2"» [] []).
    + reflexivity.
    + discriminate.
    + reflexivity.
    + exact I.
    + apply runs_none. reflexivity.
Qed.

(** C4, as the code has it.  The numbers of [sum_numbers] are the maximal
    digit runs of the query, from left to right, each converted by [int].
    When no run is longer than the limit of [int] (4300 digits) every run
    is read as the decimal number it writes: with two runs or more the first
    two are number1 and number2 and there is no warning; with fewer the
    arguments are 5 and 3 and there is exactly one warning.  A run beyond
    the limit, wherever it stands, makes the extraction raise the
    [ValueError] of [int] for the first such run, and then the branch does
    nothing else: no tool is called.  Otherwise the extracted arguments are
    the ones [call_tool] receives, and when the call and the second
    generation return, the response is the segments so far, then the
    warnings, then the trace segment and the follow-up text.  "add 7 and 15"
    gives 7 and 15; "please sum some numbers" gives the defaults, and its
    response carries the warning right after the advisory text; a first
    number of exactly 4300 digits is still read. *)
Theorem sum_numbers_arguments :
  (forall query,
      exists runs,
        digit_runs query runs
        /\ (forall runs', digit_runs query runs' -> runs' = runs)
        /\ parse_numbers query = python_ints runs
        /\ (Forall (fun run : str => length run <= int_max_str_digits) runs ->
            parse_numbers query = Ok (map int_of_digits runs)
            /\ ((exists r0 r1 more,
                    runs = r0 :: r1 :: more
                    /\ sum_arguments query
                       = Ok ([(«"number1"», VInt (int_of_digits r0));
                              («"number2"», VInt (int_of_digits r1))], []))
                \/ (length runs < 2
                    /\ sum_arguments query
                       = Ok ([(«"number1"», VInt 5); («"number2"», VInt 3)],
                             [defaults_warning]))))
        /\ (forall (before : list str) (run : str) (after : list str),
               runs = before ++ run :: after ->
               Forall (fun r : str => length r <= int_max_str_digits) before ->
               int_max_str_digits < length run ->
               sum_arguments query
               = Raise (ValueError (int_limit_message (length run))))
        /\ (Forall (fun run : str => length run <= int_max_str_digits) runs
            \/ exists (before : list str) (run : str) (after : list str),
                 runs = before ++ run :: after
                 /\ Forall (fun r : str => length r <= int_max_str_digits) before
                 /\ int_max_str_digits < length run))
  /\ (forall World
        (session_call_tool : str -> tool_args -> World -> outcome ToolResult * World)
        (generate_content : str -> World -> outcome str * World)
        (repr_str : str -> str) query final_text (st : state World),
         (forall e,
             sum_arguments query = Raise e ->
             sum_numbers_branch session_call_tool generate_content repr_str
                                query final_text st = (Raise e, st))
         /\ (forall args warnings,
                sum_arguments query = Ok (args, warnings) ->
                (exists r st' later,
                    sum_numbers_branch session_call_tool generate_content
                                       repr_str query final_text st = (r, st')
                    /\ trace st'
                       = trace st ++ EvCallTool «"sum_numbers"» args :: later)
                /\ (forall result w1 follow_up w2,
                       session_call_tool «"sum_numbers"» args (world st)
                       = (Ok result, w1) ->
                       generate_content
                         (follow_up_prompt query (result_text result)) w1
                       = (Ok follow_up, w2) ->
                       sum_numbers_branch session_call_tool generate_content
                                          repr_str query final_text st
                       = (Ok (final_text ++ warnings
                              ++ [calling repr_str «"sum_numbers"» args
                                          (result_text result);
                                  follow_up]),
                          MkState w2
                            (trace st
                             ++ [EvCallTool «"sum_numbers"» args;
                                 EvGenerate
                                   (follow_up_prompt query
                                      (result_text result))])))))
  /\ sum_arguments «"add 7 and 15"»
     = Ok ([(«"number1"», VInt 7); («"number2"», VInt 15)], [])
  /\ (forall advisory,
         contains «"[Use tool: create_employee]"» advisory = false ->
         classify «"add 7 and 15"» advisory = InvokeSumNumbers)
  /\ sum_arguments «"please sum some numbers"»
     = Ok ([(«"number1"», VInt 5); («"number2"», VInt 3)], [defaults_warning])
  /\ sum_arguments limit_run_query
     = Ok ([(«"number1"», VInt (int_of_digits (repeat "1"%char 4300)));
            («"number2"», VInt 2)], [])
  /\ Demo.response_segments «"please sum some numbers"» (Demo.start [])
     = (Ok [«"Sure."»;
            defaults_warning;
            «"[Calling tool sum_numbers with args {'number1': 5, 'number2': 3}]"»
            ++ nl
            ++ «"Result: meta=None content=[TextContent(text='22')] isError=False"»;
            «"Sure."»],
        MkState []
          [EvListTools;
           EvGenerate (tool_prompt Demo.json_dumps «"please sum some numbers"»
                                   Demo.tools);
           EvCallTool «"sum_numbers"»
                      [(«"number1"», VInt 5); («"number2"», VInt 3)];
           EvGenerate
             (follow_up_prompt «"please sum some numbers"»
                               (result_text Demo.tool_result))]).
Proof.
  split; [|split; [|split; [|split; [|split; [|split]]]]].
  - intros query. exists (findall digits_re query).
    pose proof (findall_digit_runs query) as R.
    split; [exact R|]. split.
    { intros runs' R'. exact (digit_runs_unique R' R). }
    split; [reflexivity|]. split; [|split].
    + intros F. unfold sum_arguments, parse_numbers.
      rewrite (@python_ints_ok _ F). split; [reflexivity|].
      destruct (findall digits_re query) as [|r0 [|r1 more]]; simpl.
      * right. split; [lia | reflexivity].
      * right. split; [lia | reflexivity].
      * left. exists r0, r1, more. split; reflexivity.
    + intros before run after E F L. unfold sum_arguments, parse_numbers.
      rewrite E, (@python_ints_long before run after F L). reflexivity.
    + apply first_long_run.
  - intros. split.
    + intros e E. now apply sum_numbers_branch_raise.
    + intros args warnings E. split.
      * now apply sum_numbers_branch_calls with (warnings := warnings).
      * intros result w1 follow_up w2 C G.
        exact (@sum_numbers_branch_ok World session_call_tool
                 generate_content repr_str query final_text st args
                 warnings result w1 follow_up w2 E C G).
  - reflexivity.
  - intros advisory H. unfold classify, wants_create_employee.
    rewrite H. simpl. unfold wants_sum_numbers.
    replace (contains «"add"» (lower «"add 7 and 15"»)) with true
      by reflexivity.
    now rewrite orb_true_r.
  - reflexivity.
  - vm_compute. reflexivity.
  - vm_compute. reflexivity.
Qed.

(** C4 as stated fails on a query with a digit run beyond the limit of
    [int]: "add ", 4301 times the digit 1, " and 2" is a sum_numbers query
    with two maximal digit runs, and yet no number is produced: the
    extraction raises [ValueError], and in the scripted world the query
    ends with that exception before any tool call. *)
Lemma sum_numbers_long_run_raises :
  classify long_run_query «"Sure."» = InvokeSumNumbers
  /\ digit_runs long_run_query [repeat "1"%char 4301; «"2"»]
  /\ parse_numbers long_run_query
     = Raise (ValueError (int_limit_message 4301))
  /\ sum_arguments long_run_query
     = Raise (ValueError (int_limit_message 4301))
  /\ (forall args warnings,
         sum_arguments long_run_query <> Ok (args, warnings))
  /\ Demo.response_segments long_run_query (Demo.start [])
     = (Raise (ValueError (int_limit_message 4301)),
        MkState []
          [EvListTools;
           EvGenerate (tool_prompt Demo.json_dumps long_run_query
                                   Demo.tools)]).
Proof.
  assert (S : sum_arguments long_run_query
              = Raise (ValueError (int_limit_message 4301)))
    by (vm_compute; reflexivity).
  split; [vm_compute; reflexivity|].
  split; [exact long_run_query_runs|].
  split; [vm_compute; reflexivity|].
  split; [exact S|].
  split; [intros args warnings E; rewrite S in E; discriminate E|].
  vm_compute. reflexivity.
Qed.

(** ** Substring tests and classification (C3) *)

Lemma startswith_spec p :
  forall s, startswith p s = true <-> exists suf, s = p ++ suf.
Proof.
  induction p as [|a p IH]; intros s; simpl.
  - split; eauto.
  - destruct s as [|b s].
    + split; [discriminate | intros [suf E]; discriminate].
    + rewrite andb_true_iff, Ascii.eqb_eq, IH. split.
      * intros [-> [suf ->]]. eauto.
      * intros [suf E]. injection E as -> ->. eauto.
Qed.

Lemma contains_spec p :
  forall s, contains p s = true <-> occurs p s.
Proof.
  unfold occurs. induction s as [|c s IH]; simpl.
  - rewrite orb_false_r, startswith_spec. split.
    + intros [suf E]. exists [], suf. exact E.
    + intros (pre & suf & E). destruct pre; [|discriminate]. eauto.
  - rewrite orb_true_iff, startswith_spec, IH. split.
    + intros [[suf E]|(pre & suf & ->)].
      * exists [], suf. exact E.
      * exists (c :: pre), suf. reflexivity.
    + intros (pre & suf & E). destruct pre as [|c' pre].
      * left. eauto.
      * right. injection E as _ ->. eauto.
Qed.

Lemma endswith_spec s p :
  endswith s p = true <-> exists stem, s = stem ++ p.
Proof.
  unfold endswith. rewrite startswith_spec. split.
  - intros [suf E]. exists (rev suf).
    rewrite <- (rev_involutive s), E, rev_app_distr, rev_involutive.
    reflexivity.
  - intros [stem ->]. exists (rev stem). apply rev_app_distr.
Qed.

Lemma contains_lower kw query :
  contains kw (lower query) = true <-> mentions kw query.
Proof.
  rewrite contains_spec. unfold occurs, mentions, lower. split.
  - intros (pre & suf & E).
    apply map_eq_app in E. destruct E as (pre' & t & -> & <- & E).
    apply map_eq_app in E. destruct E as (mid & suf' & -> & <- & <-).
    exists pre', mid, suf'. auto.
  - intros (pre & mid & suf & -> & <-).
    exists (map lower_char pre), (map lower_char suf).
    now rewrite !map_app.
Qed.

Lemma wants_create_employee_spec query advisory :
  wants_create_employee query advisory = true
  <-> create_employee_trigger query advisory.
Proof.
  unfold wants_create_employee, create_employee_trigger.
  rewrite !orb_true_iff, !contains_lower, contains_spec. tauto.
Qed.

Lemma wants_sum_numbers_spec query advisory :
  wants_sum_numbers query advisory = true
  <-> sum_numbers_trigger query advisory.
Proof.
  unfold wants_sum_numbers, sum_numbers_trigger.
  rewrite !orb_true_iff, !contains_lower, contains_spec. tauto.
Qed.

(** C3.  The first test that holds decides.  When the query mentions
    employee or create (any letter case) or the advisory text has the
    create_employee marker, the intent is InvokeCreateEmployee, whatever the
    sum triggers say; otherwise, when the advisory text has the sum_numbers
    marker or the query mentions add, sum or plus, it is InvokeSumNumbers;
    otherwise it is DirectAnswer. *)
Theorem classification_first_match_wins :
  (forall query advisory,
      (create_employee_trigger query advisory
       /\ classify query advisory = InvokeCreateEmployee)
      \/ (~ create_employee_trigger query advisory
          /\ sum_numbers_trigger query advisory
          /\ classify query advisory = InvokeSumNumbers)
      \/ (~ create_employee_trigger query advisory
          /\ ~ sum_numbers_trigger query advisory
          /\ classify query advisory = DirectAnswer))
  /\ classify «"CREATE the sum of 1 plus 2"» «"[Use tool: sum_numbers]"»
     = InvokeCreateEmployee
  /\ classify «"What is 1 PLUS 2?"» «"3"» = InvokeSumNumbers
  /\ classify «"hello"» «"[Use tool: create_employee] maybe"»
     = InvokeCreateEmployee
  /\ classify «"hello"» «"Hi there"» = DirectAnswer.
Proof.
  split; [|repeat split; reflexivity].
  intros query advisory. unfold classify.
  pose proof (wants_create_employee_spec query advisory) as C.
  pose proof (wants_sum_numbers_spec query advisory) as S.
  destruct (wants_create_employee query advisory).
  - left. split; [apply C|]; reflexivity.
  - right. assert (~ create_employee_trigger query advisory).
    { intros T. apply C in T. discriminate. }
    destruct (wants_sum_numbers query advisory).
    + left. repeat split; auto. apply S. reflexivity.
    + right. repeat split; auto. intros T. apply S in T. discriminate.
Qed.

(** ** Running the two branches *)

Section Runs.
Variable World : Type.
Variable session_list_tools : World -> outcome (list ToolDescriptor) * World.
Variable session_call_tool :
  str -> tool_args -> World -> outcome ToolResult * World.
Variable generate_content : str -> World -> outcome str * World.
Variable json_dumps : list ToolDescriptor -> str.
Variable repr_str : str -> str.

Lemma create_employee_branch_run query final_text st nif dob :
  parse_nif query = Ok nif ->
  parse_date_of_birth query = Ok dob ->
  create_employee_branch session_call_tool generate_content repr_str
                         query final_text st
  = invoke_and_summarise session_call_tool generate_content repr_str
      «"create_employee"»
      (create_employee_args (parse_employee_name query) nif
                            dob (parse_address query))
      content_or_text query
      (final_text ++ name_warnings (parse_employee_name query))
      (MkState (world st) (trace st ++ parse_prints query nif dob)).
Proof.
  intros F D.
  unfold create_employee_branch, invoke_and_summarise, bind, print, external,
    lift, ret, follow_up_prompt, parse_prints.
  rewrite F, D. cbv beta iota zeta. cbn [world trace].
  rewrite <- !app_assoc. cbn [app].
  destruct (session_call_tool _ _ (world st)) as [[result|e] w1];
    cbv beta iota zeta; cbn [world trace]; [|reflexivity].
  destruct (generate_content _ w1) as [[follow_up|e] w2];
    cbv beta iota zeta; cbn [world trace];
    rewrite <- ?app_assoc; reflexivity.
Qed.

(** When [int] rejects the digits of the nif, the branch ends there: the
    name has been printed, nothing else has happened. *)
Lemma create_employee_branch_raise query final_text st e :
  parse_nif query = Raise e ->
  create_employee_branch session_call_tool generate_content repr_str
                         query final_text st
  = (Raise e,
     MkState (world st)
       (trace st
        ++ [EvPrint («"Parsed name: "» ++ parse_employee_name query)])).
Proof.
  intros F.
  unfold create_employee_branch, bind, print, external, lift.
  rewrite F. reflexivity.
Qed.

Lemma sum_numbers_branch_run query final_text st :
  sum_numbers_branch session_call_tool generate_content repr_str
                     query final_text st
  = match sum_arguments query with
    | Ok (args, warnings) =>
        invoke_and_summarise session_call_tool generate_content repr_str
          «"sum_numbers"» args result_text query (final_text ++ warnings) st
    | Raise e => (Raise e, st)
    end.
Proof.
  unfold sum_numbers_branch, invoke_and_summarise, bind, lift, external, ret,
    follow_up_prompt.
  destruct (sum_arguments query) as [[args warnings]|e]; [|reflexivity].
  cbv beta iota zeta. cbn [world trace].
  destruct (session_call_tool _ _ (world st)) as [[result|e] w1];
    cbv beta iota zeta; cbn [world trace]; [|reflexivity].
  destruct (generate_content _ w1) as [[follow_up|e] w2];
    cbv beta iota zeta; cbn [world trace];
    rewrite <- ?app_assoc; reflexivity.
Qed.

Lemma response_segments_run query st tools w1 advisory w2 :
  session_list_tools (world st) = (Ok tools, w1) ->
  generate_content (tool_prompt json_dumps query tools) w1
  = (Ok advisory, w2) ->
  response_segments session_list_tools session_call_tool generate_content
                    json_dumps repr_str query st
  = let st2 :=
      MkState w2 (trace st ++ [EvListTools;
                               EvGenerate (tool_prompt json_dumps query tools)])
    in
    match classify query advisory with
    | InvokeCreateEmployee =>
        create_employee_branch session_call_tool generate_content repr_str
                               query [advisory] st2
    | InvokeSumNumbers =>
        sum_numbers_branch session_call_tool generate_content repr_str
                           query [advisory] st2
    | DirectAnswer => (Ok [advisory], st2)
    end.
Proof.
  intros L G. unfold response_segments, bind, external, ret.
  rewrite L. cbn [world trace]. rewrite G.
  cbv beta iota zeta. cbn [world trace]. rewrite <- app_assoc. cbn [app].
  destruct (classify query advisory); reflexivity.
Qed.
End Runs.

(** ** The worked example of the specification (C5) *)

(** C5.  For the query about Jane Smith the four fields are Jane Smith,
    123456789, 1990-03-05 and 10 Main St, and there is no warning; the query
    is always classified as a create_employee request, and these are the
    arguments [call_tool] receives. *)
Theorem jane_smith_extraction :
  parse_employee_name jane_smith_query = «"Jane Smith"»
  /\ parse_nif jane_smith_query = Ok 123456789%N
  /\ parse_date_of_birth jane_smith_query = Ok «"1990-03-05"»
  /\ parse_address jane_smith_query = «"10 Main St"»
  /\ name_warnings (parse_employee_name jane_smith_query) = []
  /\ (forall advisory,
         classify jane_smith_query advisory = InvokeCreateEmployee)
  /\ (forall World
        (session_call_tool : str -> tool_args -> World -> outcome ToolResult * World)
        (generate_content : str -> World -> outcome str * World)
        (repr_str : str -> str) final_text (st : state World),
         create_employee_branch session_call_tool generate_content repr_str
                                jane_smith_query final_text st
         = invoke_and_summarise session_call_tool generate_content repr_str
             «"create_employee"»
             (create_employee_args «"Jane Smith"» 123456789 «"1990-03-05"»
                                   «"10 Main St"»)
             content_or_text jane_smith_query final_text
             (MkState (world st)
                      (trace st
                       ++ [EvPrint «"Parsed name: Jane Smith"»;
                           EvPrint «"Parsed nif: 123456789"»;
                           EvPrint «"Parsed date_of_birth: 1990-03-05"»;
                           EvPrint «"Parsed address: 10 Main St"»]))).
Proof.
  assert (N : parse_employee_name jane_smith_query = «"Jane Smith"»)
    by reflexivity.
  assert (F : parse_nif jane_smith_query = Ok 123456789%N) by reflexivity.
  assert (D : parse_date_of_birth jane_smith_query = Ok «"1990-03-05"»)
    by reflexivity.
  assert (A : parse_address jane_smith_query = «"10 Main St"») by reflexivity.
  split; [exact N|]. split; [exact F|]. split; [exact D|].
  split; [exact A|]. split; [reflexivity|]. split.
  - intros advisory. unfold classify, wants_create_employee.
    replace (contains «"employee"» (lower jane_smith_query)) with true
      by reflexivity.
    reflexivity.
  - intros. rewrite (create_employee_branch_run _ _ _ _ _ _ F D).
    unfold parse_prints. rewrite N, A.
    change (name_warnings «"Jane Smith"») with (@nil str).
    rewrite app_nil_r. reflexivity.
Qed.

(** ** The display of the tool result (C1) *)

(** C1 on the code: the sum_numbers branch always shows the text of the
    result object, also when the object has a [content] field, while the
    create_employee branch shows the content.  In the scripted world the
    result has the content [TextContent(text='22')]: the sum_numbers
    segment shows the whole object, the create_employee segment the
    content. *)
Theorem sum_numbers_trace_shows_raw_result :
  (forall World
     (session_call_tool : str -> tool_args -> World -> outcome ToolResult * World)
     (generate_content : str -> World -> outcome str * World)
     (repr_str : str -> str) query final_text (st : state World),
      sum_numbers_branch session_call_tool generate_content repr_str
                         query final_text st
      = match sum_arguments query with
        | Ok (args, warnings) =>
            invoke_and_summarise session_call_tool generate_content repr_str
              «"sum_numbers"» args result_text query (final_text ++ warnings)
              st
        | Raise e => (Raise e, st)
        end)
  /\ content Demo.tool_result = Some «"[TextContent(text='22')]"»
  /\ fst (Demo.response_segments «"add 7 and 15"» (Demo.start []))
     = Ok [«"Sure."»;
           «"[Calling tool sum_numbers with args {'number1': 7, 'number2': 15}]"»
           ++ nl
           ++ «"Result: meta=None content=[TextContent(text='22')] isError=False"»;
           «"Sure."»]
  /\ fst (Demo.response_segments «"Create employee named Jane Smith"»
                                 (Demo.start []))
     = Ok [«"Sure."»;
           «"[Calling tool create_employee with args {'employee_name': 'Jane Smith', 'nif': 0, 'date_of_birth': '', 'address': ''}]"»
           ++ nl ++ «"Result: [TextContent(text='22')]"»;
           «"Sure."»].
Proof.
  split; [|split; [|split]].
  - intros. apply sum_numbers_branch_run.
  - reflexivity.
  - vm_compute. reflexivity.
  - vm_compute. reflexivity.
Qed.

(** ** The direct answer (C9) *)

Lemma classify_direct query advisory :
  ~ create_employee_trigger query advisory ->
  ~ sum_numbers_trigger query advisory ->
  classify query advisory = DirectAnswer.
Proof.
  intros C S. unfold classify.
  destruct (wants_create_employee query advisory) eqn:EC.
  - exfalso. apply C. now apply wants_create_employee_spec.
  - destruct (wants_sum_numbers query advisory) eqn:ES; [|reflexivity].
    exfalso. apply S. now apply wants_sum_numbers_spec.
Qed.

(** C9.  When the tools are listed, the advisory text is generated, and
    neither the query nor the advisory text triggers a tool, the intent is
    DirectAnswer and the response is the advisory text alone: one segment,
    no warning, no tool call, no second generation. *)
Theorem direct_answer_is_advisory_only
        World
        (session_list_tools : World -> outcome (list ToolDescriptor) * World)
        (session_call_tool : str -> tool_args -> World -> outcome ToolResult * World)
        (generate_content : str -> World -> outcome str * World)
        (json_dumps : list ToolDescriptor -> str) (repr_str : str -> str)
        query (st : state World) tools w1 advisory w2 :
  session_list_tools (world st) = (Ok tools, w1) ->
  generate_content (tool_prompt json_dumps query tools) w1 = (Ok advisory, w2) ->
  ~ create_employee_trigger query advisory ->
  ~ sum_numbers_trigger query advisory ->
  classify query advisory = DirectAnswer
  /\ response_segments session_list_tools session_call_tool generate_content
                       json_dumps repr_str query st
     = (Ok [advisory],
        MkState w2 (trace st ++ [EvListTools;
                                 EvGenerate (tool_prompt json_dumps query tools)]))
  /\ process_query session_list_tools session_call_tool generate_content
                   json_dumps repr_str query st
     = (Ok advisory,
        MkState w2 (trace st ++ [EvListTools;
                                 EvGenerate (tool_prompt json_dumps query tools)])).
Proof.
  intros L G C S.
  pose proof (classify_direct C S) as D.
  pose proof (response_segments_run session_list_tools session_call_tool
                generate_content json_dumps repr_str query st L G) as R.
  rewrite D in R. cbv zeta in R.
  split; [exact D|]. split; [exact R|].
  unfold process_query, bind, ret. rewrite R. reflexivity.
Qed.

(** The theorem of C9 at the query "hello" in the scripted world. *)
Lemma direct_answer_is_advisory_only_witness :
  Demo.session_list_tools (world (Demo.start [])) = (Ok Demo.tools, [])
  /\ Demo.generate_content (tool_prompt Demo.json_dumps «"hello"» Demo.tools) []
     = (Ok «"Sure."», [])
  /\ ~ create_employee_trigger «"hello"» «"Sure."»
  /\ ~ sum_numbers_trigger «"hello"» «"Sure."»
  /\ Demo.process_query «"hello"» (Demo.start [])
     = (Ok «"Sure."»,
        MkState []
                ([] ++ [EvListTools;
                        EvGenerate (tool_prompt Demo.json_dumps «"hello"»
                                                Demo.tools)])).
Proof.
  assert (C : ~ create_employee_trigger «"hello"» «"Sure."»).
  { intros T. apply wants_create_employee_spec in T. discriminate T. }
  assert (S : ~ sum_numbers_trigger «"hello"» «"Sure."»).
  { intros T. apply wants_sum_numbers_spec in T. discriminate T. }
  split; [reflexivity|]. split; [reflexivity|].
  split; [exact C|]. split; [exact S|].
  apply (@direct_answer_is_advisory_only
           Demo.World Demo.session_list_tools Demo.session_call_tool
           Demo.generate_content Demo.json_dumps Demo.repr_str
           «"hello"» (Demo.start []) Demo.tools [] «"Sure."» []
           eq_refl eq_refl C S).
Defined.

(** ** Connecting to the server (C7) *)

Lemma not_both_extensions path :
  endswith path «".py"» = true -> endswith path «".js"» = true -> False.
Proof.
  unfold endswith. cbn [rev app list_ascii_of_string].
  destruct (rev path) as [|c t]; cbn [startswith]; [discriminate|].
  intros H1 H2. apply andb_prop in H1. apply andb_prop in H2.
  destruct H1 as [H1 _]. destruct H2 as [H2 _].
  apply Ascii.eqb_eq in H1. apply Ascii.eqb_eq in H2. congruence.
Qed.

Ltac trace_grows :=
  do 3 eexists; (split; [reflexivity|]); cbn [trace];
  rewrite <- ?app_assoc; reflexivity.

(** Case analysis on the next answer of the world in a run: when the
    collaborator raises, the run stops there. *)
Ltac next_answer :=
  match goal with
  | |- context [match ?f ?a ?b (world ?st) with pair _ _ => _ end] =>
      destruct (f a b (world st)) as [[?|?] ?]
  | |- context [match ?f (world ?st) with pair _ _ => _ end] =>
      destruct (f (world st)) as [[?|?] ?]
  | |- context [match ?f ?a ?b ?w with pair _ _ => _ end] =>
      is_var w; destruct (f a b w) as [[?|?] ?]
  | |- context [match ?f ?w with pair _ _ => _ end] =>
      is_var w; destruct (f w) as [[?|?] ?]
  end; cbv beta iota zeta; cbn [world trace]; [|trace_grows].

(** C7.  A path that ends neither in .py nor in .js makes
    [connect_to_server] raise the ValueError of line 35 before anything else
    happens: the state is untouched, so no transport is spawned and no
    session is created.  For a path that ends in .py the first thing done is
    spawning the transport with the command python and the path as its only
    argument; for a path that ends in .js, with the command node. *)
Theorem connect_rejects_unsupported_scripts :
  forall World
    (stdio_client : str -> list str -> World -> outcome unit * World)
    (client_session session_initialize : World -> outcome unit * World)
    (session_list_tools : World -> outcome (list ToolDescriptor) * World)
    (repr_str : str -> str) path (st : state World),
    ((~ (exists stem, path = stem ++ «".py"»)) ->
     (~ (exists stem, path = stem ++ «".js"»)) ->
     connect_to_server stdio_client client_session session_initialize
                       session_list_tools repr_str path st
     = (Raise (ValueError «"Server script must be a .py or .js file"»), st))
    /\ ((exists stem, path = stem ++ «".py"») ->
        exists r st' later,
          connect_to_server stdio_client client_session session_initialize
                            session_list_tools repr_str path st = (r, st')
          /\ trace st' = trace st ++ EvSpawn «"python"» [path] :: later)
    /\ ((exists stem, path = stem ++ «".js"») ->
        exists r st' later,
          connect_to_server stdio_client client_session session_initialize
                            session_list_tools repr_str path st = (r, st')
          /\ trace st' = trace st ++ EvSpawn «"node"» [path] :: later).
Proof.
  intros. unfold connect_to_server.
  pose proof (endswith_spec path «".py"») as P.
  pose proof (endswith_spec path «".js"») as J.
  pose proof (@not_both_extensions path) as B.
  destruct (endswith path «".py"»), (endswith path «".js"»);
    try (exfalso; now apply B).
  - split; [|split].
    + intros N. exfalso. apply N, P. reflexivity.
    + intros _. cbn [orb negb]. unfold bind, external, print, ret.
      do 4 next_answer. trace_grows.
    + intros E. apply J in E. discriminate.
  - split; [|split].
    + intros _ N. exfalso. apply N, J. reflexivity.
    + intros E. apply P in E. discriminate.
    + intros _. cbn [orb negb]. unfold bind, external, print, ret.
      do 4 next_answer. trace_grows.
  - split; [|split].
    + intros _ _. reflexivity.
    + intros E. apply P in E. discriminate.
    + intros E. apply J in E. discriminate.
Qed.

(** ** Stripping a line *)

Lemma lstrip_spaces ws s :
  forallb isspace ws = true -> lstrip (ws ++ s) = lstrip s.
Proof.
  induction ws as [|c ws IH]; simpl; [auto|].
  intros H. apply andb_prop in H. destruct H as [-> H]. auto.
Qed.

Lemma lstrip_keep s : head_fails isspace s -> lstrip s = s.
Proof. destruct s as [|c s]; simpl; [auto|]. now intros ->. Qed.

Lemma lstrip_split s :
  exists ws,
    s = ws ++ lstrip s /\ forallb isspace ws = true
    /\ head_fails isspace (lstrip s).
Proof.
  induction s as [|c s (ws & E & F & H)]; simpl.
  - exists []. auto.
  - destruct (isspace c) eqn:C.
    + exists (c :: ws). simpl. rewrite C, F. repeat split; auto. congruence.
    + exists []. simpl. auto.
Qed.

Lemma forallb_rev (f : ascii -> bool) l :
  forallb f l = true -> forallb f (rev l) = true.
Proof.
  rewrite !forallb_forall. intros H x I. apply H. now apply in_rev.
Qed.

Lemma strip_core ws1 core ws2 :
  forallb isspace ws1 = true -> forallb isspace ws2 = true ->
  head_fails isspace core -> head_fails isspace (rev core) ->
  strip (ws1 ++ core ++ ws2) = core.
Proof.
  intros F1 F2 H T. unfold strip, rstrip. rewrite lstrip_spaces by assumption.
  destruct core as [|c core].
  - simpl. rewrite <- (app_nil_r ws2), lstrip_spaces by assumption.
    reflexivity.
  - rewrite (lstrip_keep ((c :: core) ++ ws2)) by exact H.
    rewrite rev_app_distr, lstrip_spaces by (now apply forallb_rev).
    rewrite lstrip_keep by exact T. apply rev_involutive.
Qed.

(** What [strip] returns has no white space at either end, and the line is
    that text between two runs of white space. *)
Lemma strip_split s :
  exists ws1 ws2,
    s = ws1 ++ strip s ++ ws2
    /\ forallb isspace ws1 = true /\ forallb isspace ws2 = true
    /\ head_fails isspace (strip s) /\ head_fails isspace (rev (strip s)).
Proof.
  unfold strip, rstrip.
  destruct (lstrip_split s) as (ws1 & E1 & F1 & H1).
  destruct (lstrip_split (rev (lstrip s))) as (ws & E2 & F2 & H2).
  exists ws1, (rev ws).
  assert (E3 : lstrip s = rev (lstrip (rev (lstrip s))) ++ rev ws).
  { rewrite <- rev_app_distr, <- E2. symmetry. apply rev_involutive. }
  repeat split.
  - rewrite <- E3. exact E1.
  - exact F1.
  - now apply forallb_rev.
  - destruct (rev (lstrip (rev (lstrip s)))) as [|c t] eqn:R; simpl; [auto|].
    rewrite E3 in H1. simpl in H1. exact H1.
  - rewrite rev_involutive. exact H2.
Qed.

Lemma quit_has_no_space_ends core :
  lower core = «"quit"» ->
  head_fails isspace core /\ head_fails isspace (rev core).
Proof.
  destruct core as [|c1 [|c2 [|c3 [|c4 [|c5 t]]]]]; try discriminate.
  unfold lower. simpl. intros E. injection E as E1 _ _ E4.
  split;
    [exact (lower_char_not_space c1 E1 eq_refl)
    | exact (lower_char_not_space c4 E4 eq_refl)].
Qed.

Lemma str_eqb_spec a b : str_eqb a b = true <-> a = b.
Proof.
  unfold str_eqb. destruct (list_eq_dec ascii_dec a b); split; auto.
  discriminate.
Qed.

(** ** The interactive loop (C8, C10) *)

Section ChatLoop.
Variable World : Type.
Variable session_list_tools : World -> outcome (list ToolDescriptor) * World.
Variable session_call_tool :
  str -> tool_args -> World -> outcome ToolResult * World.
Variable generate_content : str -> World -> outcome str * World.
Variable console_input : str -> World -> outcome str * World.
Variable json_dumps : list ToolDescriptor -> str.
Variable repr_str : str -> str.

Local Abbreviation turn :=
  (chat_turn session_list_tools session_call_tool generate_content
             console_input json_dumps repr_str).
Local Abbreviation loop :=
  (chat_loop session_list_tools session_call_tool generate_content
             console_input json_dumps repr_str).
Local Abbreviation process :=
  (process_query session_list_tools session_call_tool generate_content
                 json_dumps repr_str).

Lemma chat_turn_quit st line w1 :
  console_input query_prompt (world st) = (Ok line, w1) ->
  lower (strip line) = «"quit"» ->
  turn st = (Ok Terminated, after_input st w1).
Proof.
  intros I Q. unfold chat_turn, try_except, bind, external, ret.
  fold query_prompt. rewrite I. cbv beta iota zeta.
  apply str_eqb_spec in Q. rewrite Q. reflexivity.
Qed.

Lemma chat_turn_query st line w1 :
  console_input query_prompt (world st) = (Ok line, w1) ->
  lower (strip line) <> «"quit"» ->
  turn st
  = match process (strip line) (after_input st w1) with
    | (Ok response, st2) => (Ok AwaitingInput, after_print st2 (nl ++ response))
    | (Raise e, st2) =>
        if is_exception e
        then (Ok AwaitingInput, after_print st2 (error_line e))
        else (Raise e, st2)
    end.
Proof.
  intros I Q. unfold chat_turn, try_except, bind, external, ret, print.
  fold query_prompt. rewrite I. cbv beta iota zeta.
  destruct (str_eqb (lower (strip line)) «"quit"») eqn:E.
  - apply str_eqb_spec in E. contradiction.
  - unfold after_input.
    destruct (process (strip line) _) as [[response|e] st2]; [reflexivity|].
    destruct (is_exception e); reflexivity.
Qed.

Lemma chat_turn_input_error st e w1 :
  console_input query_prompt (world st) = (Raise e, w1) ->
  turn st
  = if is_exception e
    then (Ok AwaitingInput, after_print (after_input st w1) (error_line e))
    else (Raise e, after_input st w1).
Proof.
  intros I. unfold chat_turn, try_except, bind, external, ret, print.
  fold query_prompt. rewrite I. cbv beta iota zeta.
  destruct (is_exception e); reflexivity.
Qed.

(** A turn ends the loop only when the line read is quit. *)
Lemma chat_turn_terminated st st' :
  turn st = (Ok Terminated, st') ->
  exists line,
    console_input query_prompt (world st) = (Ok line, world st')
    /\ lower (strip line) = «"quit"»
    /\ st' = after_input st (world st').
Proof.
  destruct (console_input query_prompt (world st)) as [[line|e] w1] eqn:I.
  - destruct (list_eq_dec ascii_dec (lower (strip line)) «"quit"») as [Q|Q].
    + rewrite (chat_turn_quit st I Q). intros H. injection H as <-.
      exists line. auto.
    + rewrite (chat_turn_query st I Q).
      destruct (process (strip line) _) as [[response|e] st2];
        [discriminate|].
      destruct (is_exception e); discriminate.
  - rewrite (chat_turn_input_error st I).
    destruct (is_exception e); discriminate.
Qed.

(** What a turn raises is not an [Exception], and reading the line or
    processing the query raised it. *)
Lemma chat_turn_raises st e st' :
  turn st = (Raise e, st') ->
  is_exception e = false
  /\ ((exists w1,
          console_input query_prompt (world st) = (Raise e, w1)
          /\ st' = after_input st w1)
      \/ (exists line w1,
             console_input query_prompt (world st) = (Ok line, w1)
             /\ lower (strip line) <> «"quit"»
             /\ process (strip line) (after_input st w1) = (Raise e, st'))).
Proof.
  destruct (console_input query_prompt (world st)) as [[line|e0] w1] eqn:I.
  - destruct (list_eq_dec ascii_dec (lower (strip line)) «"quit"») as [Q|Q].
    + rewrite (chat_turn_quit st I Q). discriminate.
    + rewrite (chat_turn_query st I Q).
      destruct (process (strip line) _) as [[response|e1] st2] eqn:P;
        [discriminate|].
      destruct (is_exception e1) eqn:X; [discriminate|].
      intros H. injection H as <- <-. split; [exact X|].
      right. exists line, w1. auto.
  - rewrite (chat_turn_input_error st I).
    destruct (is_exception e0) eqn:X; [discriminate|].
    intros H. injection H as <- <-. split; [exact X|].
    left. exists w1. auto.
Qed.

(** The loop ends only by a turn that read quit or by a turn that raised. *)
Lemma chat_loop_terminated turns :
  forall st st',
    loop turns st = (Ok Terminated, st') ->
    exists st0 line,
      turn st0 = (Ok Terminated, st')
      /\ console_input query_prompt (world st0) = (Ok line, world st')
      /\ lower (strip line) = «"quit"».
Proof.
  induction turns as [|turns IH]; intros st st'; simpl.
  - unfold ret. discriminate.
  - unfold bind. destruct (turn st) as [[[|]|e] st1] eqn:T.
    + apply IH.
    + unfold ret. intros H. injection H as <-.
      destruct (chat_turn_terminated st T) as (line & I & Q & _).
      exists st, line. auto.
    + discriminate.
Qed.

Lemma chat_loop_raises turns :
  forall st e st',
    loop turns st = (Raise e, st') ->
    is_exception e = false /\ exists st0, turn st0 = (Raise e, st').
Proof.
  induction turns as [|turns IH]; intros st e st'; simpl.
  - unfold ret. discriminate.
  - unfold bind. destruct (turn st) as [[[|]|e0] st1] eqn:T.
    + apply IH.
    + unfold ret. discriminate.
    + intros H. injection H as <- <-.
      split; [exact (proj1 (chat_turn_raises st T))|]. eauto.
Qed.

(** ** When the collaborators raise nothing but [Exception]s *)

Lemma python_ints_raises (runs : list str) e :
  python_ints runs = Raise e -> is_exception e = true.
Proof.
  induction runs as [|run runs IH]; simpl; [discriminate|].
  unfold python_int at 1.
  destruct (int_max_str_digits <? length run).
  - intros H. injection H as <-. reflexivity.
  - destruct (python_ints runs); [discriminate|].
    intros H. injection H as <-. now apply IH.
Qed.

Lemma sum_arguments_raises query e :
  sum_arguments query = Raise e -> is_exception e = true.
Proof.
  unfold sum_arguments, parse_numbers.
  destruct (python_ints (findall digits_re query)) as [[|n0 [|n1 more]]|e0] eqn:P;
    try discriminate.
  intros H. injection H as <-. exact (python_ints_raises _ P).
Qed.

Lemma parse_nif_raises query e :
  parse_nif query = Raise e -> is_exception e = true.
Proof.
  unfold parse_nif, python_int.
  destruct (search nif_re query) as [m|]; [|discriminate].
  destruct (int_max_str_digits <? length (group 1 (m_caps m)));
    [|discriminate].
  intros H. injection H as <-. reflexivity.
Qed.

Hypothesis list_raises : raises_exceptions_only session_list_tools.
Hypothesis call_raises :
  forall tool args, raises_exceptions_only (session_call_tool tool args).
Hypothesis generate_raises :
  forall prompt, raises_exceptions_only (generate_content prompt).
Hypothesis input_raises :
  forall prompt, raises_exceptions_only (console_input prompt).

Lemma invoke_and_summarise_raises tool args shown query final_text st e st' :
  invoke_and_summarise session_call_tool generate_content repr_str
                       tool args shown query final_text st = (Raise e, st') ->
  is_exception e = true.
Proof.
  unfold invoke_and_summarise.
  destruct (session_call_tool tool args (world st)) as [[result|e0] w1] eqn:C.
  - destruct (generate_content _ w1) as [[follow_up|e0] w2] eqn:G;
      [discriminate|].
    intros H. injection H as <- _. exact (generate_raises G).
  - intros H. injection H as <- _. exact (call_raises C).
Qed.

Lemma process_query_raises query st e st' :
  process query st = (Raise e, st') -> is_exception e = true.
Proof.
  unfold process_query, bind, ret.
  destruct (response_segments session_list_tools session_call_tool
              generate_content json_dumps repr_str query st)
    as [[segments|e0] st1] eqn:R; [discriminate|].
  intros H. injection H as <- _. revert R.
  unfold response_segments, bind, external, ret.
  destruct (session_list_tools (world st)) as [[tools|e1] w1] eqn:L;
    [|intros H; injection H as <- _; exact (list_raises L)].
  cbn [world trace].
  destruct (generate_content (tool_prompt json_dumps query tools) w1)
    as [[advisory|e1] w2] eqn:G;
    [|intros H; injection H as <- _; exact (generate_raises G)].
  destruct (classify query advisory).
  - discriminate.
  - destruct (parse_nif query) as [nif|e1] eqn:F.
    + destruct (parse_date_of_birth_ok query) as (dob & D).
      rewrite (create_employee_branch_run session_call_tool generate_content
                 repr_str query [advisory] _ F D).
      apply invoke_and_summarise_raises.
    + rewrite (create_employee_branch_raise session_call_tool
                 generate_content repr_str query [advisory] _ F).
      intros H. injection H as <- _. exact (parse_nif_raises query F).
  - rewrite sum_numbers_branch_run.
    destruct (sum_arguments query) as [[args warnings]|e1] eqn:S.
    + apply invoke_and_summarise_raises.
    + intros H. injection H as <- _. exact (sum_arguments_raises query S).
Qed.

(** Then a turn never raises, and neither does the loop. *)
Lemma chat_turn_total st : exists status st', turn st = (Ok status, st').
Proof.
  destruct (turn st) as [[status|e] st'] eqn:T; [eauto|].
  exfalso. destruct (chat_turn_raises st T) as [X [(w1 & I & _)|(line & w1 & _ & _ & P)]].
  - rewrite (input_raises I) in X. discriminate.
  - rewrite (process_query_raises _ _ P) in X. discriminate.
Qed.

Lemma chat_loop_total turns :
  forall st, exists status st', loop turns st = (Ok status, st').
Proof.
  induction turns as [|turns IH]; intros st; simpl.
  - unfold ret. eauto.
  - unfold bind. destruct (chat_turn_total st) as (status & st1 & ->).
    destruct status; [apply IH | unfold ret; eauto].
Qed.
End ChatLoop.



(** C10.  The line read is stripped before anything else.  A line that is
    quit in any letter case between two runs of white space ends the loop.
    Any other line is processed as its stripped text: [process_query]
    receives [strip line], which has no white space at either end and is
    the line without its leading and trailing white space. *)
Theorem input_is_stripped :
  (forall World
     (session_list_tools : World -> outcome (list ToolDescriptor) * World)
     (session_call_tool : str -> tool_args -> World -> outcome ToolResult * World)
     (generate_content : str -> World -> outcome str * World)
     (console_input : str -> World -> outcome str * World)
     (json_dumps : list ToolDescriptor -> str) (repr_str : str -> str)
     (st : state World),
      (forall ws1 core ws2 w1,
          forallb isspace ws1 = true -> forallb isspace ws2 = true ->
          lower core = «"quit"» ->
          console_input query_prompt (world st) = (Ok (ws1 ++ core ++ ws2), w1) ->
          chat_turn session_list_tools session_call_tool generate_content
                    console_input json_dumps repr_str st
          = (Ok Terminated, after_input st w1))
      /\ (forall line w1,
             console_input query_prompt (world st) = (Ok line, w1) ->
             lower (strip line) <> «"quit"» ->
             chat_turn session_list_tools session_call_tool generate_content
                       console_input json_dumps repr_str st
             = match process_query session_list_tools session_call_tool
                                   generate_content json_dumps repr_str
                                   (strip line) (after_input st w1) with
               | (Ok response, st2) =>
                   (Ok AwaitingInput, after_print st2 (nl ++ response))
               | (Raise e, st2) =>
                   if is_exception e
                   then (Ok AwaitingInput, after_print st2 (error_line e))
                   else (Raise e, st2)
               end))
  /\ (forall line,
         exists ws1 ws2,
           line = ws1 ++ strip line ++ ws2
           /\ forallb isspace ws1 = true /\ forallb isspace ws2 = true
           /\ head_fails isspace (strip line)
           /\ head_fails isspace (rev (strip line)))
  /\ fst (Demo.chat_loop 1 (Demo.start [["009"%char] ++ «" QUIT  "»]))
     = Ok Terminated
  /\ Demo.chat_loop 1 (Demo.start [«"  add 7 and 15 "»])
     = (Ok AwaitingInput,
        after_print
          (snd (Demo.process_query «"add 7 and 15"»
                                   (after_input (Demo.start [«"  add 7 and 15 "»])
                                                [])))
          (nl ++ «"Sure."» ++ nl
              ++ «"[Calling tool sum_numbers with args {'number1': 7, 'number2': 15}]"»
              ++ nl
              ++ «"Result: meta=None content=[TextContent(text='22')] isError=False"»
              ++ nl ++ «"Sure."»)).
Proof.
  split; [|split; [exact strip_split
                  |split; [vm_compute; reflexivity | vm_compute; reflexivity]]].
  intros. split.
  - intros ws1 core ws2 w1 F1 F2 Q I.
    apply (chat_turn_quit session_list_tools session_call_tool
             generate_content console_input json_dumps repr_str st I).
    destruct (quit_has_no_space_ends core Q) as [H T].
    rewrite strip_core by assumption. exact Q.
  - intros line w1 I Q. now apply chat_turn_query.
Qed.

(** * Further properties *)

(** ** The shape of the date of birth *)

(** X1.  Reading the date of birth never fails, whatever the query, and
    what it returns is either the empty string or four digits, a hyphen,
    two digits, a hyphen and two digits. *)
Theorem date_of_birth_is_empty_or_well_formed :
  forall query,
    exists dob,
      parse_date_of_birth query = Ok dob
      /\ (dob = []
          \/ exists yyyy mm dd,
               dob = yyyy ++ «"-"» ++ mm ++ «"-"» ++ dd
               /\ digits 4 yyyy /\ digits 2 mm /\ digits 2 dd).
Proof.
  intros query. unfold parse_date_of_birth.
  destruct (search date_re query) as [m|] eqn:S; [|eauto].
  apply search_from_sound in S. destruct S as (pre & _ & _ & D & _).
  apply den_date in D. destruct D as (dd & mm & yyyy & P & G).
  rewrite G, group_single.
  destruct P as (k1 & s1 & k2 & s2 & k3 & s3 & _ & _ & _ & _ & _ & _ & _
                 & D1 & D2 & D3).
  rewrite split_date by assumption.
  eexists. split; [reflexivity|]. right. exists yyyy, mm, dd. auto.
Qed.

(** ** Numbers and what separates them *)

Lemma digit_runs_app a ra :
  digit_runs a ra ->
  forall c b rb,
    isdecimal c = false -> digit_runs b rb ->
    digit_runs (a ++ c :: b) (ra ++ rb).
Proof.
  induction 1 as [a F|gap run rest runs G N D A R IH]; intros c b rb C Rb.
  - simpl. inversion Rb as [b' Fb|gap run rest runs G N D A R']; subst.
    + apply runs_none. rewrite forallb_app. simpl. unfold not_digit at 2.
      rewrite F, C, Fb. reflexivity.
    + replace (a ++ c :: gap ++ run ++ rest)
        with ((a ++ c :: gap) ++ run ++ rest)
        by (rewrite <- app_assoc; reflexivity).
      apply runs_next; auto.
      rewrite forallb_app. simpl. unfold not_digit at 2.
      rewrite F, C, G. reflexivity.
  - replace ((gap ++ run ++ rest) ++ c :: b)
      with (gap ++ run ++ (rest ++ c :: b))
      by (rewrite <- !app_assoc; reflexivity).
    simpl. apply runs_next; auto.
    destruct rest; simpl; [exact C | exact A].
Qed.

Lemma python_ints_app (a b : list str) :
  python_ints (a ++ b) = numbers_then (python_ints a) (python_ints b).
Proof.
  induction a as [|run a IH]; simpl.
  - destruct (python_ints b); reflexivity.
  - destruct (python_int run) as [n|e]; [|reflexivity].
    rewrite IH. destruct (python_ints a) as [ns|e]; [|reflexivity].
    simpl. destruct (python_ints b); reflexivity.
Qed.

(** X2.  A character that is not a digit separates numbers and contributes
    nothing: the numbers read from a text, such a character and another
    text are the numbers of the first followed by those of the second, and
    when a run is too long for [int] the exception is that of the first
    such run.  So a sign or a decimal point is dropped: "add -5 and 3.5"
    gives 5 and 3. *)
Theorem numbers_split_at_non_digits :
  (forall a c b,
      isdecimal c = false ->
      parse_numbers (a ++ c :: b)
      = numbers_then (parse_numbers a) (parse_numbers b))
  /\ (forall a c b na nb,
         isdecimal c = false ->
         parse_numbers a = Ok na -> parse_numbers b = Ok nb ->
         parse_numbers (a ++ c :: b) = Ok (na ++ nb))
  /\ sum_arguments «"add -5 and 3.5"»
     = Ok ([(«"number1"», VInt 5); («"number2"», VInt 3)], []).
Proof.
  assert (Split : forall a c b,
             isdecimal c = false ->
             parse_numbers (a ++ c :: b)
             = numbers_then (parse_numbers a) (parse_numbers b)).
  { intros a c b C. unfold parse_numbers. rewrite <- python_ints_app.
    f_equal.
    apply (digit_runs_unique (findall_digit_runs (a ++ c :: b))).
    apply digit_runs_app; auto using findall_digit_runs. }
  split; [exact Split|]. split; [|reflexivity].
  intros a c b na nb C A B. rewrite (Split a c b C), A, B. reflexivity.
Qed.

(** ** The tax number *)

(** A greedily repeated group at the end of a pattern takes the longest run
    after which the rest succeeds. *)
Lemma rmatch_greedy_group_first (A : Type) n lo hi cs
      (k : str -> caps -> option A) s g0 x :
  rmatch (Grp n (Rep true lo hi cs)) k s g0 = Some x ->
  exists w rest,
    s = w ++ rest /\ forallb (in_set cs) w = true
    /\ lo <= length w /\ fits hi (length w)
    /\ k rest ((n, w) :: g0) = Some x
    /\ forall w' rest',
         s = w' ++ rest' -> forallb (in_set cs) w' = true ->
         fits hi (length w') -> length w < length w' ->
         k rest' ((n, w') :: g0) = None.
Proof.
  simpl. intros H. apply rep_greedy_first in H.
  destruct H as (w & rest & -> & F & L & B & K & Max).
  rewrite firstn_consumed in K.
  exists w, rest. repeat split; auto.
  intros w' rest' E F' B' L'. specialize (Max w' rest' E F' B' L').
  rewrite E, firstn_consumed in Max. exact Max.
Qed.

Lemma match_here_nif pos s m :
  match_here nif_re pos s = Some m ->
  exists kw ws run,
    s = kw ++ ws ++ run ++ m_rest m
    /\ lower kw = «"nif"» /\ spaces ws
    /\ run <> [] /\ forallb isdecimal run = true
    /\ no_digit_ahead (m_rest m)
    /\ m_caps m = [(1, run)].
Proof.
  unfold match_here, nif_re, plus. intros H.
  apply rmatch_cat_sound in H. destruct H as (kw & r1 & g1 & E1 & K & H).
  apply den_lit in K. destruct K as [K ->].
  apply rmatch_cat_sound in H. destruct H as (ws & r2 & g2 & -> & S & H).
  apply (den_spaces ws r2 g2) in S. destruct S as [S ->].
  apply rmatch_greedy_group_first in H.
  destruct H as (run & rest & -> & F & L & _ & H & Max).
  injection H as <-. simpl.
  exists kw, ws, run. repeat split; auto; try apply S.
  - destruct run; simpl in L; [lia | discriminate].
  - destruct rest as [|c rest]; simpl; [auto|].
    destruct (isdecimal c) eqn:D; [exfalso | reflexivity].
    assert (N := Max (run ++ [c]) rest).
    rewrite <- app_assoc in N. simpl in N.
    rewrite forallb_app, F, length_app in N. simpl in N. rewrite D in N.
    specialize (N eq_refl eq_refl I). discriminate N. lia.
Qed.

Lemma den_nif kw ws run rest :
  lower kw = «"nif"» -> spaces ws -> run <> [] ->
  forallb isdecimal run = true ->
  den nif_re (kw ++ ws ++ run) rest [(1, run)].
Proof.
  intros K S N F. unfold nif_re.
  cat_intro kw (@nil (nat * str)) [(1, run)]; [apply den_lit; auto|].
  cat_intro ws (@nil (nat * str)) [(1, run)]; [apply den_spaces; auto|].
  exists []. split; [|reflexivity]. apply den_plus. auto.
Qed.

(** X3.  The tax number is read at the first place where the query has the
    letters nif (any letter case, also inside a longer word), then white
    space, then digits: [int] is applied to the whole run of digits, and this
    place decides the result.  A run of at most 4300 digits gives the number
    it writes (also one of exactly 4300 digits); a longer one makes [int]
    raise [ValueError].  Without such a place, for instance when the digits
    follow nif without white space, the tax number is 0. *)
Theorem nif_extraction :
  (forall query,
      (exists pre kw ws run rest,
          nif_occurrence query pre kw ws run rest
          /\ (forall pre' kw' ws' run' rest',
                 nif_occurrence query pre' kw' ws' run' rest' ->
                 length pre <= length pre')
          /\ parse_nif query = python_int run)
      \/ ((forall pre kw ws run rest,
              ~ nif_occurrence query pre kw ws run rest)
          /\ parse_nif query = Ok 0%N))
  /\ (forall query pre kw ws run rest,
         nif_occurrence query pre kw ws run rest ->
         (forall pre' kw' ws' run' rest',
             nif_occurrence query pre' kw' ws' run' rest' ->
             length pre <= length pre') ->
         parse_nif query = python_int run
         /\ (length run <= int_max_str_digits ->
             parse_nif query = Ok (int_of_digits run))
         /\ (int_max_str_digits < length run ->
             parse_nif query
             = Raise (ValueError (int_limit_message (length run)))))
  /\ parse_nif «"employee with NIF  0042x"» = Ok 42%N
  /\ parse_nif «"nif123456789"» = Ok 0%N
  /\ parse_nif limit_nif_query = Ok (int_of_digits (repeat "9"%char 4300))
  /\ parse_nif long_nif_query = Raise (ValueError (int_limit_message 4301)).
Proof.
  assert (Cases : forall query,
             (exists pre kw ws run rest,
                 nif_occurrence query pre kw ws run rest
                 /\ (forall pre' kw' ws' run' rest',
                        nif_occurrence query pre' kw' ws' run' rest' ->
                        length pre <= length pre')
                 /\ parse_nif query = python_int run)
             \/ ((forall pre kw ws run rest,
                     ~ nif_occurrence query pre kw ws run rest)
                 /\ parse_nif query = Ok 0%N)).
  { intros query. unfold parse_nif, search.
    destruct (search_from nif_re 0 query) as [m|] eqn:S.
    - left. apply search_from_here in S.
      destruct S as (pre & tail & -> & M & L).
      apply match_here_nif in M.
      destruct M as (kw & ws & run & -> & K & W & N & F & A & G).
      exists pre, kw, ws, run, (m_rest m).
      split; [repeat split; auto; apply W|].
      split; [|rewrite G, group_single; reflexivity].
      intros pre' kw' ws' run' rest' (E & K' & W' & N' & F' & A').
      apply (L pre' (kw' ++ ws' ++ run') rest' [(1, run')]).
      + rewrite E. now rewrite <- !app_assoc.
      + now apply den_nif.
    - right. split; [|reflexivity].
      intros pre kw ws run rest (E & K & W & N & F & A).
      apply (search_from_none _ _ S pre (kw ++ ws ++ run) rest [(1, run)]).
      + rewrite E. now rewrite <- !app_assoc.
      + now apply den_nif. }
  split; [exact Cases|].
  split; [|split; [reflexivity
                  |split; [reflexivity
                          |split; vm_compute; reflexivity]]].
  intros query pre kw ws run rest O L.
  assert (P : parse_nif query = python_int run).
  { destruct (Cases query)
      as [(pre0 & kw0 & ws0 & run0 & rest0 & O0 & L0 & P)|[N _]];
      [|exfalso; exact (N _ _ _ _ _ O)].
    pose proof (L _ _ _ _ _ O0) as L1. pose proof (L0 _ _ _ _ _ O) as L2.
    destruct O as (E & K & W & N & F & A).
    destruct O0 as (E0 & K0 & W0 & N0 & F0 & A0).
    rewrite E in E0. apply app_eq_length in E0; [|lia].
    destruct E0 as [_ E0].
    apply app_eq_length in E0;
      [|now rewrite (@lower_length _ _ K), (@lower_length _ _ K0)].
    destruct E0 as [_ E0].
    apply (span_unique isspace) in E0;
      [|apply W | apply W0
       |eapply (@digits_head_not_space (pred (length run)));
        split; [destruct run; simpl; congruence | exact F]
       |eapply (@digits_head_not_space (pred (length run0)));
        split; [destruct run0; simpl; congruence | exact F0]].
    destruct E0 as [_ E0].
    apply (span_unique isdecimal) in E0; auto.
    destruct E0 as [-> _]. exact P. }
  split; [exact P|]. split; intros Len; rewrite P.
  - exact (@python_int_ok run Len).
  - exact (@python_int_long run Len).
Qed.

(** ** The address *)

Lemma den_addr_elim w rest g :
  den addr_re w rest g ->
  exists a kw ws body,
    w = a ++ kw ++ ws ++ body
    /\ (a = [] \/ exists k s, a = k ++ s /\ lower k = «"and"» /\ spaces s)
    /\ lower kw = «"address"» /\ spaces ws
    /\ body <> [] /\ no_newline body /\ at_end rest = true
    /\ g = [(1, body)].
Proof.
  unfold addr_re, opt. intros (a & w1 & g1 & g2 & -> & O & H & ->).
  destruct H as (kw & w2 & g3 & g4 & -> & K & H & ->).
  destruct H as (ws & w3 & g5 & g6 & -> & S & H & ->).
  destruct H as (body & e & g7 & g8 & -> & (g9 & B & ->) & (-> & E & ->) & ->).
  apply den_lit in K. destruct K as [K ->].
  apply (den_spaces ws) in S. destruct S as [S ->].
  apply (den_plus CAny body) in B. destruct B as (B1 & B2 & ->).
  exists a, kw, ws, body. rewrite app_nil_r.
  assert (A : (a = [] \/ exists k s, a = k ++ s /\ lower k = «"and"» /\ spaces s)
              /\ g1 = []).
  { destruct O as [O|[-> ->]]; [|auto].
    destruct O as (k & s & ga & gb & -> & Kk & Ss & ->).
    apply den_lit in Kk. destruct Kk as [Kk ->].
    apply (den_spaces s) in Ss. destruct Ss as [Ss ->].
    split; [right; exists k, s|]; auto. }
  destruct A as [A ->]. repeat split; auto; apply S.
Qed.

Lemma den_addr_intro kw ws body tail :
  lower kw = «"address"» -> spaces ws -> body <> [] -> no_newline body ->
  at_end tail = true ->
  den addr_re (kw ++ ws ++ body) tail [(1, body)].
Proof.
  intros K S B1 B2 E. unfold addr_re, opt.
  apply den_cat with (w1 := []) (w2 := kw ++ ws ++ body) (g1 := [])
                     (g2 := [(1, body)]); [reflexivity | reflexivity | |].
  { right. simpl. auto. }
  cat_intro kw (@nil (nat * str)) [(1, body)]; [apply den_lit; auto|].
  cat_intro ws (@nil (nat * str)) [(1, body)]; [apply den_spaces; auto|].
  apply den_cat with (w1 := body) (w2 := []) (g1 := [(1, body)]) (g2 := []);
    [now rewrite app_nil_r | reflexivity | |].
  - exists []. split; [|reflexivity]. apply den_plus. auto.
  - simpl. auto.
Qed.

Lemma app_eq_app_le (a x a' x' : str) :
  a ++ x = a' ++ x' -> length a <= length a' ->
  exists l, a' = a ++ l /\ x = l ++ x'.
Proof.
  revert a'. induction a as [|c a IH]; intros a' E L.
  - exists a'. auto.
  - destruct a' as [|c' a']; [simpl in L; lia|].
    simpl in E, L. injection E as <- E.
    destruct (IH a' E) as (l & -> & ->); [lia|]. exists l. auto.
Qed.

(** The letters address cannot begin inside "and" and the white space that
    follows it. *)
Lemma address_not_inside_and k s l l2 kw x y :
  lower k = «"and"» -> forallb isspace s = true -> lower kw = «"address"» ->
  k ++ s = l ++ l2 -> l2 <> [] -> l2 ++ x = kw ++ y -> False.
Proof.
  intros K S A E N E2.
  destruct k as [|k1 [|k2 [|k3 [|k4 t]]]]; try discriminate.
  unfold lower in K. simpl in K. injection K as K1 K2 K3.
  destruct kw as [|a1 [|a2 kw]]; try discriminate.
  unfold lower in A. simpl in A. injection A as A1 A2 _.
  assert (Sp : forall c, In c s -> lower_char c <> "a"%char).
  { intros c I Hc. rewrite forallb_forall in S. specialize (S c I).
    rewrite (lower_char_not_space c Hc eq_refl) in S. discriminate. }
  destruct l as [|x1 [|x2 [|x3 l]]]; simpl in E.
  - subst l2. simpl in E2. injection E2 as <- <- _. congruence.
  - injection E as _ <-. simpl in E2. injection E2 as <- _. congruence.
  - injection E as _ _ <-. simpl in E2. injection E2 as <- _. congruence.
  - injection E as _ _ _ ->.
    destruct l2 as [|c l2]; [congruence|].
    simpl in E2. injection E2 as <- _.
    apply (Sp c); [|exact A1]. apply in_or_app. right. left. reflexivity.
Qed.

Lemma at_end_cases tail : at_end tail = true -> tail = [] \/ tail = nl.
Proof.
  destruct tail as [|c [|d t]]; simpl; auto; [|discriminate].
  intros E. apply Ascii.eqb_eq in E. subst. auto.
Qed.

Lemma strip_leading_spaces l body :
  forallb isspace l = true -> strip (l ++ body) = strip body.
Proof. intros F. unfold strip. now rewrite lstrip_spaces. Qed.

(** Two readings of what follows the letters address give the same
    stripped text. *)
Lemma address_body_unique ws body tail ws0 body0 tail0 :
  ws ++ body ++ tail = ws0 ++ body0 ++ tail0 ->
  forallb isspace ws = true -> forallb isspace ws0 = true ->
  body <> [] -> body0 <> [] -> no_newline body -> no_newline body0 ->
  at_end tail = true -> at_end tail0 = true ->
  strip body = strip body0.
Proof.
  intros E S S0 B B0 N N0 T T0.
  assert (Last : forall b, b <> [] -> no_newline b ->
                 exists c r, rev b = c :: r /\ c <> "010"%char).
  { intros b Hb Hn. destruct (rev b) as [|c r] eqn:R.
    - exfalso. apply Hb. rewrite <- (rev_involutive b), R. reflexivity.
    - exists c, r. split; [reflexivity|].
      unfold no_newline in Hn. rewrite forallb_forall in Hn.
      specialize (Hn c). intros ->.
      assert (I : In "010"%char b) by (apply in_rev; rewrite R; now left).
      specialize (Hn I). discriminate. }
  assert (E' : ws ++ body = ws0 ++ body0).
  { rewrite !app_assoc in E.
    destruct (at_end_cases _ T) as [->| ->],
             (at_end_cases _ T0) as [->| ->].
    - now rewrite !app_nil_r in E.
    - exfalso. rewrite app_nil_r in E. apply (f_equal (@rev ascii)) in E.
      rewrite !rev_app_distr in E. simpl in E.
      destruct (Last body B N) as (c & r & R & C). rewrite R in E.
      simpl in E. injection E as E _. congruence.
    - exfalso. rewrite app_nil_r in E. apply (f_equal (@rev ascii)) in E.
      rewrite !rev_app_distr in E. simpl in E.
      destruct (Last body0 B0 N0) as (c & r & R & C). rewrite R in E.
      simpl in E. injection E as E _. congruence.
    - now apply app_inv_tail in E. }
  destruct (Nat.le_gt_cases (length ws) (length ws0)) as [L|L].
  - destruct (app_eq_app_le _ _ _ _ E' L) as (l & -> & ->).
    rewrite forallb_app in S0. apply andb_prop in S0.
    apply strip_leading_spaces. tauto.
  - symmetry in E'.
    destruct (app_eq_app_le _ _ _ _ E' (Nat.lt_le_incl _ _ L)) as (l & -> & ->).
    rewrite forallb_app in S. apply andb_prop in S.
    symmetry. apply strip_leading_spaces. tauto.
Qed.

(** X4.  The address is read at the first place where the query has the
    letters address (any letter case), then white space, then a text on one
    line that runs to the end of the query: it is that text, stripped, and
    this place decides the result.  Whatever follows the address in the
    query is therefore part of it.  Without such a place, for instance when
    a line feed stands inside the text, the address is empty. *)
Theorem address_extraction :
  (forall query,
      (exists pre kw ws body tail,
          address_occurrence query pre kw ws body tail
          /\ (forall pre' kw' ws' body' tail',
                 address_occurrence query pre' kw' ws' body' tail' ->
                 length pre <= length pre')
          /\ parse_address query = strip body)
      \/ ((forall pre kw ws body tail,
              ~ address_occurrence query pre kw ws body tail)
          /\ parse_address query = []))
  /\ (forall query pre kw ws body tail,
         address_occurrence query pre kw ws body tail ->
         (forall pre' kw' ws' body' tail',
             address_occurrence query pre' kw' ws' body' tail' ->
             length pre <= length pre') ->
         parse_address query = strip body)
  /\ parse_address «"create employee, address 10 Main St, nif 5 and name Al"»
     = «"10 Main St, nif 5 and name Al"»
  /\ parse_address («"address 10 Main St"» ++ nl ++ «"nif 5"») = [].
Proof.
  assert (Cases : forall query,
             (exists pre kw ws body tail,
                 address_occurrence query pre kw ws body tail
                 /\ (forall pre' kw' ws' body' tail',
                        address_occurrence query pre' kw' ws' body' tail' ->
                        length pre <= length pre')
                 /\ parse_address query = strip body)
             \/ ((forall pre kw ws body tail,
                     ~ address_occurrence query pre kw ws body tail)
                 /\ parse_address query = [])).
  { intros query. unfold parse_address.
    destruct (search addr_re query) as [m|] eqn:S.
    - left. apply search_from_sound in S.
      destruct S as (pre & E & _ & D & L).
      apply den_addr_elim in D.
      destruct D as (a & kw & ws & body & Ew & A & K & W & B1 & B2 & T & G).
      exists (pre ++ a), kw, ws, body, (m_rest m).
      split; [|split; [|rewrite G, group_single; reflexivity]].
      + repeat split; auto; try apply W.
        rewrite E, Ew. now rewrite <- !app_assoc.
      + intros pre' kw' ws' body' tail' (E' & K' & W' & B1' & B2' & T').
        assert (L1 : length pre <= length pre').
        { apply (L pre' (kw' ++ ws' ++ body') tail' [(1, body')]).
          - rewrite E'. now rewrite <- !app_assoc.
          - now apply den_addr_intro. }
        rewrite length_app.
        destruct A as [->|(k & s & -> & Kk & Ss)]; [simpl; lia|].
        destruct (Nat.le_gt_cases (length pre + length (k ++ s)) (length pre'))
          as [|Lt]; [assumption|exfalso].
        assert (Q : pre ++ ((k ++ s) ++ kw ++ ws ++ body ++ m_rest m)
                    = pre' ++ kw' ++ ws' ++ body' ++ tail').
        { rewrite <- E', E, Ew. rewrite <- !app_assoc. reflexivity. }
        destruct (app_eq_app_le _ _ _ _ Q L1) as (l & -> & E2).
        rewrite length_app in Lt.
        assert (Ll : length l <= length (k ++ s)) by lia.
        destruct (app_eq_app_le _ _ _ _ (eq_sym E2) Ll) as (l2 & E4 & E5).
        apply (@address_not_inside_and k s l l2 kw'
                 (kw ++ ws ++ body ++ m_rest m)
                 (ws' ++ body' ++ tail') Kk (proj2 Ss) K' E4).
        * intros ->. rewrite app_nil_r in E4. rewrite E4 in Lt. lia.
        * symmetry. exact E5.
    - right. split; [|reflexivity].
      intros pre kw ws body tail (E & K & W & B1 & B2 & T).
      apply (search_from_none _ _ S pre (kw ++ ws ++ body) tail [(1, body)]).
      + rewrite E. now rewrite <- !app_assoc.
      + now apply den_addr_intro. }
  split; [exact Cases|]. split; [|split; reflexivity].
  intros query pre kw ws body tail O L.
  destruct (Cases query)
    as [(pre0 & kw0 & ws0 & body0 & tail0 & O0 & L0 & P)|[N _]];
    [|exfalso; exact (N _ _ _ _ _ O)].
  pose proof (L _ _ _ _ _ O0) as L1. pose proof (L0 _ _ _ _ _ O) as L2.
  destruct O as (E & K & W & B & Nn & T).
  destruct O0 as (E0 & K0 & W0 & B0 & Nn0 & T0).
  rewrite E in E0. apply app_eq_length in E0; [|lia].
  destruct E0 as [_ E0].
  apply app_eq_length in E0;
    [|now rewrite (@lower_length _ _ K), (@lower_length _ _ K0)].
  destruct E0 as [_ E0].
  rewrite P. symmetry.
  exact (@address_body_unique ws body tail ws0 body0 tail0 E0
           (proj2 W) (proj2 W0) B B0 Nn Nn0 T T0).
Qed.

(** ** What the fields never contain *)

Lemma forallb_lstrip (P : ascii -> bool) s :
  forallb P s = true -> forallb P (lstrip s) = true.
Proof.
  induction s as [|c s IH]; simpl; [auto|].
  intros H. destruct (isspace c); [|exact H].
  apply andb_prop in H. tauto.
Qed.

Lemma forallb_strip (P : ascii -> bool) s :
  forallb P s = true -> forallb P (strip s) = true.
Proof.
  intros H. unfold strip, rstrip.
  now apply forallb_rev, forallb_lstrip, forallb_rev, forallb_lstrip.
Qed.

Lemma strip_has_no_space_ends s :
  head_fails isspace (strip s) /\ head_fails isspace (rev (strip s)).
Proof. destruct (strip_split s) as (ws1 & ws2 & _ & _ & _ & H & T). auto. Qed.

(** X5.  Whatever the query, the employee name passed to the tool has no
    comma and no white space at either end, and the address has no line
    feed and no white space at either end. *)
Theorem name_and_address_are_clean :
  forall query,
    (no_comma (parse_employee_name query)
     /\ head_fails isspace (parse_employee_name query)
     /\ head_fails isspace (rev (parse_employee_name query)))
    /\ (no_newline (parse_address query)
        /\ head_fails isspace (parse_address query)
        /\ head_fails isspace (rev (parse_address query))).
Proof.
  intros query. split.
  - unfold parse_employee_name, name_match, search.
    destruct (search_from name_re 0 query) as [m|] eqn:S.
    + apply search_from_here in S. destruct S as (pre & tail & _ & M & _).
      apply match_here_name in M.
      destruct M as (kw & ws & body & stop & _ & _ & _ & _ & B & _ & G & _).
      rewrite G, group_single.
      split; [now apply forallb_strip | apply strip_has_no_space_ends].
    + repeat split; reflexivity.
  - unfold parse_address.
    destruct (search addr_re query) as [m|] eqn:S.
    + apply search_from_sound in S. destruct S as (pre & _ & _ & D & _).
      apply den_addr_elim in D.
      destruct D as (a & kw & ws & body & _ & _ & _ & _ & _ & B & _ & G).
      rewrite G, group_single.
      split; [now apply forallb_strip | apply strip_has_no_space_ends].
    + repeat split; reflexivity.
Qed.

(** ** What a query does, and in which order *)

Lemma count_app p a b : count p (a ++ b) = count p a + count p b.
Proof. unfold count. now rewrite filter_app, length_app. Qed.

Lemma date_or_empty_ok query :
  parse_date_of_birth query = Ok (date_or_empty query).
Proof.
  unfold date_or_empty.
  destruct (parse_date_of_birth_ok query) as (dob & ->). reflexivity.
Qed.

Lemma name_warnings_short n : length (name_warnings n) <= 1.
Proof. unfold name_warnings. destruct (_ || _); simpl; lia. Qed.

Lemma planned_warnings_short query advisory :
  length (planned_warnings query advisory) <= 1.
Proof.
  unfold planned_warnings. destruct (classify query advisory).
  - simpl. lia.
  - apply name_warnings_short.
  - destruct (sum_arguments_cases query)
      as [(e & _ & ->)|[(n0 & n1 & more & _ & ->)|(numbers & _ & _ & ->)]];
      simpl; lia.
Qed.

(** What reading the arguments raises is the [ValueError] of [int]. *)
Lemma python_ints_raise_inv (runs : list str) e :
  python_ints runs = Raise e ->
  exists len,
    int_max_str_digits < len /\ e = ValueError (int_limit_message len).
Proof.
  induction runs as [|run runs IH]; simpl; [discriminate|].
  unfold python_int at 1.
  destruct (Nat.ltb_spec int_max_str_digits (length run)) as [Long|Short].
  - intros H. injection H as <-. eauto.
  - destruct (python_ints runs); [discriminate|].
    intros H. injection H as <-. now apply IH.
Qed.

Lemma planned_call_raise_inv query advisory e :
  planned_call query advisory = Raise e ->
  exists len,
    int_max_str_digits < len /\ e = ValueError (int_limit_message len).
Proof.
  unfold planned_call. destruct (classify query advisory); [discriminate| |].
  - unfold parse_nif, python_int.
    destruct (search nif_re query) as [m|]; [|discriminate].
    destruct (Nat.ltb_spec int_max_str_digits (length (group 1 (m_caps m))))
      as [Long|Short]; [|discriminate].
    intros H. injection H as <-. eauto.
  - unfold sum_arguments, parse_numbers.
    destruct (python_ints (findall digits_re query))
      as [[|n0 [|n1 more]]|e0] eqn:P; try discriminate.
    intros H. injection H as <-. exact (python_ints_raise_inv _ P).
Qed.

Section QueryRuns.
Variable World : Type.
Variable session_list_tools : World -> outcome (list ToolDescriptor) * World.
Variable session_call_tool :
  str -> tool_args -> World -> outcome ToolResult * World.
Variable generate_content : str -> World -> outcome str * World.
Variable json_dumps : list ToolDescriptor -> str.
Variable repr_str : str -> str.

Local Abbreviation segments :=
  (response_segments session_list_tools session_call_tool generate_content
                     json_dumps repr_str).
Local Abbreviation process :=
  (process_query session_list_tools session_call_tool generate_content
                 json_dumps repr_str).
Local Abbreviation invoke :=
  (invoke_and_summarise session_call_tool generate_content repr_str).

(** The three ways a tool invocation ends. *)
Lemma invoke_and_summarise_cases tool args shown query final_text st :
  (exists e w1,
      session_call_tool tool args (world st) = (Raise e, w1)
      /\ invoke tool args shown query final_text st
         = (Raise e, MkState w1 (trace st ++ [EvCallTool tool args])))
  \/ (exists result w1 e w2,
         session_call_tool tool args (world st) = (Ok result, w1)
         /\ invoke tool args shown query final_text st
            = (Raise e,
               MkState w2 (trace st
                           ++ [EvCallTool tool args;
                               EvGenerate (follow_up_prompt query
                                                            (shown result))])))
  \/ (exists result w1 follow_up w2,
         session_call_tool tool args (world st) = (Ok result, w1)
         /\ invoke tool args shown query final_text st
            = (Ok (final_text
                   ++ [calling repr_str tool args (shown result); follow_up]),
               MkState w2 (trace st
                           ++ [EvCallTool tool args;
                               EvGenerate (follow_up_prompt query
                                                            (shown result))]))).
Proof.
  unfold invoke_and_summarise.
  destruct (session_call_tool tool args (world st)) as [[result|e] w1].
  - cbv zeta.
    destruct (generate_content (follow_up_prompt query (shown result)) w1)
      as [[follow_up|e] w2].
    + right. right. exists result, w1, follow_up, w2. auto.
    + right. left. exists result, w1, e, w2. auto.
  - left. exists e, w1. auto.
Qed.

(** Once the tools are listed and the advisory text is generated, a query
    that leads to a tool runs that tool's invocation. *)
Lemma response_segments_planned query st tools w1 advisory w2 tool args :
  session_list_tools (world st) = (Ok tools, w1) ->
  generate_content (tool_prompt json_dumps query tools) w1
  = (Ok advisory, w2) ->
  planned_call query advisory = Ok (Some (tool, args)) ->
  exists shown prints,
    ((tool = «"create_employee"» /\ shown = content_or_text)
     \/ (tool = «"sum_numbers"» /\ shown = result_text))
    /\ count is_call prints = 0 /\ count is_generate prints = 0
    /\ segments query st
       = invoke tool args shown query
           (advisory :: planned_warnings query advisory)
           (MkState w2 (trace st
                        ++ [EvListTools;
                            EvGenerate (tool_prompt json_dumps query tools)]
                        ++ prints)).
Proof.
  intros L G P.
  rewrite (response_segments_run session_list_tools session_call_tool
             generate_content json_dumps repr_str query st L G).
  cbv zeta. unfold planned_call, planned_warnings in *.
  destruct (classify query advisory); [discriminate | |].
  - destruct (parse_nif query) as [nif|e] eqn:F; [|discriminate].
    injection P as <- <-.
    exists content_or_text, (parse_prints query nif (date_or_empty query)).
    split; [left; split; reflexivity|].
    split; [reflexivity|]. split; [reflexivity|].
    rewrite (create_employee_branch_run session_call_tool generate_content
               repr_str query [advisory] _ F (date_or_empty_ok query)).
    cbn [world trace app]. rewrite <- !app_assoc. reflexivity.
  - destruct (sum_arguments query) as [[args0 warnings]|e] eqn:S;
      [|discriminate].
    injection P as <- <-.
    exists result_text, [].
    split; [right; split; reflexivity|].
    split; [reflexivity|]. split; [reflexivity|].
    rewrite sum_numbers_branch_run, S. rewrite app_nil_r. reflexivity.
Qed.

(** A query whose arguments cannot be read ends there. *)
Lemma response_segments_unplanned query st tools w1 advisory w2 e :
  session_list_tools (world st) = (Ok tools, w1) ->
  generate_content (tool_prompt json_dumps query tools) w1
  = (Ok advisory, w2) ->
  planned_call query advisory = Raise e ->
  exists prints,
    count is_call prints = 0 /\ count is_generate prints = 0
    /\ segments query st
       = (Raise e,
          MkState w2 (trace st
                      ++ [EvListTools;
                          EvGenerate (tool_prompt json_dumps query tools)]
                      ++ prints)).
Proof.
  intros L G P.
  rewrite (response_segments_run session_list_tools session_call_tool
             generate_content json_dumps repr_str query st L G).
  cbv zeta. unfold planned_call in P.
  destruct (classify query advisory); [discriminate | |].
  - destruct (parse_nif query) as [nif|e0] eqn:F; [discriminate|].
    injection P as ->.
    exists [EvPrint («"Parsed name: "» ++ parse_employee_name query)].
    split; [reflexivity|]. split; [reflexivity|].
    rewrite (create_employee_branch_raise session_call_tool generate_content
               repr_str query [advisory] _ F).
    cbn [world trace]. rewrite <- !app_assoc. reflexivity.
  - destruct (sum_arguments query) as [[args0 warnings]|e0] eqn:S;
      [discriminate|].
    injection P as ->. exists [].
    split; [reflexivity|]. split; [reflexivity|].
    rewrite sum_numbers_branch_run, S. rewrite app_nil_r. reflexivity.
Qed.
End QueryRuns.

(** X6.  When the tool call raises, [process_query] raises the same
    exception right after the call: the advisory text and the warnings
    collected so far are not returned, and no follow-up text is
    generated (the advisory generation is the only one). *)
Theorem tool_failure_aborts_the_query
        World
        (session_list_tools : World -> outcome (list ToolDescriptor) * World)
        (session_call_tool : str -> tool_args -> World -> outcome ToolResult * World)
        (generate_content : str -> World -> outcome str * World)
        (json_dumps : list ToolDescriptor -> str) (repr_str : str -> str)
        query (st : state World) tools w1 advisory w2 tool args e w3 :
  session_list_tools (world st) = (Ok tools, w1) ->
  generate_content (tool_prompt json_dumps query tools) w1 = (Ok advisory, w2) ->
  planned_call query advisory = Ok (Some (tool, args)) ->
  session_call_tool tool args w2 = (Raise e, w3) ->
  exists before,
    process_query session_list_tools session_call_tool generate_content
                  json_dumps repr_str query st
    = (Raise e, MkState w3 (trace st ++ before ++ [EvCallTool tool args]))
    /\ count is_call before = 0 /\ count is_generate before = 1.
Proof.
  intros L G P C.
  destruct (response_segments_planned session_list_tools session_call_tool
              generate_content json_dumps repr_str query st L G P)
    as (shown & prints & _ & C0 & G0 & R).
  exists ([EvListTools; EvGenerate (tool_prompt json_dumps query tools)]
          ++ prints).
  split; [|split].
  - unfold process_query, bind. rewrite R.
    unfold invoke_and_summarise. cbn [world trace]. rewrite C.
    rewrite <- !app_assoc. reflexivity.
  - rewrite count_app, C0. reflexivity.
  - rewrite count_app, G0. reflexivity.
Qed.

(** The theorem of X6 at "add 1 and 2" in the world where tools fail. *)
Lemma tool_failure_aborts_the_query_witness :
  Broken.session_list_tools (world (MkState tt [])) = (Ok Demo.tools, tt)
  /\ Broken.generate_content
       (tool_prompt Demo.json_dumps «"add 1 and 2"» Demo.tools) tt
     = (Ok «"Sure."», tt)
  /\ planned_call «"add 1 and 2"» «"Sure."»
     = Ok (Some («"sum_numbers"»,
                 [(«"number1"», VInt 1); («"number2"», VInt 2)]))
  /\ Broken.session_call_tool «"sum_numbers"»
       [(«"number1"», VInt 1); («"number2"», VInt 2)] tt
     = (Raise (OtherException «"tool failed"»), tt)
  /\ exists before,
       Broken.process_query «"add 1 and 2"» (MkState tt [])
       = (Raise (OtherException «"tool failed"»),
          MkState tt ([] ++ before
                         ++ [EvCallTool «"sum_numbers"»
                               [(«"number1"», VInt 1); («"number2"», VInt 2)]]))
       /\ count is_call before = 0 /\ count is_generate before = 1.
Proof.
  split; [reflexivity|]. split; [reflexivity|]. split; [reflexivity|].
  split; [reflexivity|].
  apply (@tool_failure_aborts_the_query
           Broken.World Broken.session_list_tools Broken.session_call_tool
           Broken.generate_content Demo.json_dumps Demo.repr_str
           «"add 1 and 2"» (MkState tt []) Demo.tools tt «"Sure."» tt
           «"sum_numbers"» [(«"number1"», VInt 1); («"number2"», VInt 2)]
           (OtherException «"tool failed"») tt
           eq_refl eq_refl eq_refl eq_refl).
Defined.

(** X7.  Every query lists the tools once, calls at most one tool and
    generates text at most twice.  When [process_query] returns, the tools
    were listed and the model answered the tool prompt with the advisory
    text, and then either no tool was planned and the response is that
    advisory text alone, or the planned tool was called with the planned
    arguments right after the advisory text was generated (only prints in
    between), the model answered the follow-up prompt built from what the
    branch shows of the tool's result (its content for create_employee, the
    object itself for sum_numbers), and the response is the advisory text,
    at most one warning, the trace of the call and that follow-up text,
    joined by line feeds, in this order. *)
Theorem response_structure :
  forall World
    (session_list_tools : World -> outcome (list ToolDescriptor) * World)
    (session_call_tool : str -> tool_args -> World -> outcome ToolResult * World)
    (generate_content : str -> World -> outcome str * World)
    (json_dumps : list ToolDescriptor -> str) (repr_str : str -> str)
    query (st : state World),
  exists r st' added,
    process_query session_list_tools session_call_tool generate_content
                  json_dumps repr_str query st = (r, st')
    /\ trace st' = trace st ++ EvListTools :: added
    /\ count is_call added <= 1 /\ count is_generate added <= 2
    /\ (forall text,
           r = Ok text ->
           exists tools w1 advisory w2,
             session_list_tools (world st) = (Ok tools, w1)
             /\ generate_content (tool_prompt json_dumps query tools) w1
                = (Ok advisory, w2)
             /\ ((planned_call query advisory = Ok None
                  /\ text = advisory /\ world st' = w2
                  /\ added = [EvGenerate (tool_prompt json_dumps query tools)])
                 \/ (exists tool args result w3 shown follow_up prints,
                        planned_call query advisory = Ok (Some (tool, args))
                        /\ session_call_tool tool args w2 = (Ok result, w3)
                        /\ ((tool = «"create_employee"»
                             /\ shown = content_or_text result)
                            \/ (tool = «"sum_numbers"»
                                /\ shown = result_text result))
                        /\ generate_content (follow_up_prompt query shown) w3
                           = (Ok follow_up, world st')
                        /\ text
                           = join nl (advisory
                                        :: planned_warnings query advisory
                                        ++ [calling repr_str tool args shown;
                                            follow_up])
                        /\ length (planned_warnings query advisory) <= 1
                        /\ added
                           = EvGenerate (tool_prompt json_dumps query tools)
                               :: prints
                               ++ [EvCallTool tool args;
                                   EvGenerate (follow_up_prompt query shown)]
                        /\ count is_call prints = 0
                        /\ count is_generate prints = 0))).
Proof.
  intros.
  destruct (session_list_tools (world st)) as [[tools|e] w1] eqn:L.
  2:{ exists (Raise e), (MkState w1 (trace st ++ [EvListTools])), [].
      split; [unfold process_query, response_segments, bind, external;
              rewrite L; reflexivity|].
      split; [reflexivity|]. split; [unfold count; simpl; lia|].
      split; [unfold count; simpl; lia|].
      intros text E. discriminate E. }
  destruct (generate_content (tool_prompt json_dumps query tools) w1)
    as [[advisory|e] w2] eqn:G.
  2:{ exists (Raise e),
        (MkState w2 (trace st
                     ++ [EvListTools;
                         EvGenerate (tool_prompt json_dumps query tools)])),
        [EvGenerate (tool_prompt json_dumps query tools)].
      split; [unfold process_query, response_segments, bind, external;
              rewrite L; cbn [world trace]; rewrite G; rewrite <- app_assoc;
              reflexivity|].
      split; [cbn [trace]; reflexivity|].
      split; [unfold count; simpl; lia|]. split; [unfold count; simpl; lia|].
      intros text E. discriminate E. }
  destruct (planned_call query advisory) as [[[tool args]|]|e] eqn:P.
  - destruct (response_segments_planned session_list_tools session_call_tool
                generate_content json_dumps repr_str query st L G P)
      as (shown & prints & Sh & C0 & G0 & R).
    pose proof (planned_warnings_short query advisory) as W.
    unfold invoke_and_summarise in R. cbn [world trace] in R.
    destruct (session_call_tool tool args w2) as [[result|e] w3] eqn:C.
    2:{ exists (Raise e),
          (MkState w3 ((trace st
                        ++ [EvListTools;
                            EvGenerate (tool_prompt json_dumps query tools)]
                        ++ prints) ++ [EvCallTool tool args])),
          ([EvGenerate (tool_prompt json_dumps query tools)] ++ prints
           ++ [EvCallTool tool args]).
        split; [unfold process_query, bind; rewrite R; reflexivity|].
        split; [cbn [trace]; rewrite <- !app_assoc; reflexivity|].
        rewrite !count_app, C0, G0.
        split; [unfold count; simpl; lia|].
        split; [unfold count; simpl; lia|].
        intros text E. discriminate E. }
    cbv zeta in R.
    destruct (generate_content (follow_up_prompt query (shown result)) w3)
      as [[follow_up|e] w4] eqn:F.
    2:{ exists (Raise e),
          (MkState w4 ((trace st
                        ++ [EvListTools;
                            EvGenerate (tool_prompt json_dumps query tools)]
                        ++ prints)
                       ++ [EvCallTool tool args;
                           EvGenerate (follow_up_prompt query (shown result))])),
          ([EvGenerate (tool_prompt json_dumps query tools)] ++ prints
           ++ [EvCallTool tool args;
               EvGenerate (follow_up_prompt query (shown result))]).
        split; [unfold process_query, bind; rewrite R; reflexivity|].
        split; [cbn [trace]; rewrite <- !app_assoc; reflexivity|].
        rewrite !count_app, C0, G0.
        split; [unfold count; simpl; lia|].
        split; [unfold count; simpl; lia|].
        intros text E. discriminate E. }
    exists (Ok (join nl ((advisory :: planned_warnings query advisory)
                          ++ [calling repr_str tool args (shown result);
                              follow_up]))),
      (MkState w4 ((trace st
                     ++ [EvListTools;
                         EvGenerate (tool_prompt json_dumps query tools)]
                     ++ prints)
                    ++ [EvCallTool tool args;
                        EvGenerate (follow_up_prompt query (shown result))])),
      ([EvGenerate (tool_prompt json_dumps query tools)] ++ prints
       ++ [EvCallTool tool args;
           EvGenerate (follow_up_prompt query (shown result))]).
    split; [unfold process_query, bind, ret; rewrite R; reflexivity|].
    split; [cbn [trace]; rewrite <- !app_assoc; reflexivity|].
    rewrite !count_app, C0, G0.
    split; [unfold count; simpl; lia|]. split; [unfold count; simpl; lia|].
    intros text E. injection E as <-.
    exists tools, w1, advisory, w2. split; [reflexivity|].
    split; [exact G|]. right.
    exists tool, args, result, w3, (shown result), follow_up, prints.
    split; [exact P|]. split; [exact C|].
    split; [destruct Sh as [[T ->]|[T ->]]; auto|].
    split; [exact F|]. split; [reflexivity|]. split; [exact W|].
    split; [reflexivity|]. split; assumption.
  - exists (Ok advisory),
      (MkState w2 (trace st
                   ++ [EvListTools;
                       EvGenerate (tool_prompt json_dumps query tools)])),
      [EvGenerate (tool_prompt json_dumps query tools)].
    assert (D : classify query advisory = DirectAnswer).
    { unfold planned_call in P. destruct (classify query advisory);
        [reflexivity| |].
      - destruct (parse_nif query); discriminate.
      - destruct (sum_arguments query) as [[a0 w0]|]; discriminate. }
    pose proof (response_segments_run session_list_tools session_call_tool
                  generate_content json_dumps repr_str query st L G) as R.
    rewrite D in R. cbv zeta in R.
    split; [unfold process_query, bind, ret; rewrite R; reflexivity|].
    split; [cbn [trace]; reflexivity|].
    split; [unfold count; simpl; lia|]. split; [unfold count; simpl; lia|].
    intros text E. injection E as <-.
    exists tools, w1, advisory, w2. split; [reflexivity|].
    split; [exact G|]. left. split; [exact P|]. repeat split.
  - destruct (response_segments_unplanned session_list_tools
                session_call_tool generate_content json_dumps repr_str
                query st L G P)
      as (prints & C0 & G0 & R).
    exists (Raise e),
      (MkState w2 (trace st
                   ++ [EvListTools;
                       EvGenerate (tool_prompt json_dumps query tools)]
                   ++ prints)),
      ([EvGenerate (tool_prompt json_dumps query tools)] ++ prints).
    split; [unfold process_query, bind; rewrite R; reflexivity|].
    split; [cbn [trace]; reflexivity|].
    rewrite !count_app, C0, G0.
    split; [unfold count; simpl; lia|]. split; [unfold count; simpl; lia|].
    intros text E. discriminate E.
Qed.

(** ** The steps of connecting *)

(** X8.  For a script with a supported extension, [connect_to_server]
    spawns the transport, creates the session, initializes it and lists the
    tools, in this order.  It stops at the first of these calls that raises:
    it raises the exception of that call, in the world that call left, and
    the trace ends with that call, so that no later call is made.  When all
    four succeed it prints the names of the tools that were listed and
    returns. *)
Theorem connect_stops_at_the_first_failure
        World
        (stdio_client : str -> list str -> World -> outcome unit * World)
        (client_session session_initialize : World -> outcome unit * World)
        (session_list_tools : World -> outcome (list ToolDescriptor) * World)
        (repr_str : str -> str) path (st : state World) :
  endswith path «".py"» || endswith path «".js"» = true ->
  exists r st',
    connect_to_server stdio_client client_session session_initialize
                      session_list_tools repr_str path st = (r, st')
    /\ ((exists e w1,
            stdio_client (launch_command path) [path] (world st)
            = (Raise e, w1)
            /\ r = Raise e
            /\ st' = MkState w1 (trace st ++ firstn 1 (connect_calls path)))
        \/ (exists w1 e w2,
               stdio_client (launch_command path) [path] (world st)
               = (Ok tt, w1)
               /\ client_session w1 = (Raise e, w2)
               /\ r = Raise e
               /\ st' = MkState w2 (trace st ++ firstn 2 (connect_calls path)))
        \/ (exists w1 w2 e w3,
               stdio_client (launch_command path) [path] (world st)
               = (Ok tt, w1)
               /\ client_session w1 = (Ok tt, w2)
               /\ session_initialize w2 = (Raise e, w3)
               /\ r = Raise e
               /\ st' = MkState w3 (trace st ++ firstn 3 (connect_calls path)))
        \/ (exists w1 w2 w3 e w4,
               stdio_client (launch_command path) [path] (world st)
               = (Ok tt, w1)
               /\ client_session w1 = (Ok tt, w2)
               /\ session_initialize w2 = (Ok tt, w3)
               /\ session_list_tools w3 = (Raise e, w4)
               /\ r = Raise e
               /\ st' = MkState w4 (trace st ++ connect_calls path))
        \/ (exists w1 w2 w3 tools w4,
               stdio_client (launch_command path) [path] (world st)
               = (Ok tt, w1)
               /\ client_session w1 = (Ok tt, w2)
               /\ session_initialize w2 = (Ok tt, w3)
               /\ session_list_tools w3 = (Ok tools, w4)
               /\ r = Ok tt
               /\ st'
                  = MkState w4
                      (trace st ++ connect_calls path
                       ++ [EvPrint (nl ++ «"Connected to server with tools: "»
                                       ++ format_list repr_str
                                            (map tool_name tools))]))).
Proof.
  intros S. unfold connect_to_server. rewrite S. cbn [negb]. cbv zeta.
  change (if endswith path «".py"» then «"python"» else «"node"»)
    with (launch_command path).
  unfold bind, external, print, ret.
  destruct (stdio_client (launch_command path) [path] (world st))
    as [[[]|e] w1]; cbv beta iota zeta; cbn [world trace].
  2:{ do 2 eexists. split; [reflexivity|]. left. exists e, w1.
      split; [reflexivity|]. split; reflexivity. }
  destruct (client_session w1) as [[[]|e] w2] eqn:C;
    cbv beta iota zeta; cbn [world trace].
  2:{ do 2 eexists. split; [reflexivity|]. right. left. exists w1, e, w2.
      split; [reflexivity|]. split; [exact C|]. split; [reflexivity|].
      cbn [world trace]. rewrite <- ?app_assoc. reflexivity. }
  destruct (session_initialize w2) as [[[]|e] w3] eqn:I;
    cbv beta iota zeta; cbn [world trace].
  2:{ do 2 eexists. split; [reflexivity|]. right. right. left.
      exists w1, w2, e, w3.
      split; [reflexivity|]. split; [exact C|]. split; [exact I|].
      split; [reflexivity|].
      cbn [world trace]. rewrite <- ?app_assoc. reflexivity. }
  destruct (session_list_tools w3) as [[tools|e] w4] eqn:T;
    cbv beta iota zeta; cbn [world trace].
  2:{ do 2 eexists. split; [reflexivity|]. right. right. right. left.
      exists w1, w2, w3, e, w4.
      split; [reflexivity|]. split; [exact C|]. split; [exact I|].
      split; [exact T|]. split; [reflexivity|].
      cbn [world trace]. rewrite <- ?app_assoc. reflexivity. }
  do 2 eexists. split; [reflexivity|]. right. right. right. right.
  exists w1, w2, w3, tools, w4.
  split; [reflexivity|]. split; [exact C|]. split; [exact I|].
  split; [exact T|]. split; [reflexivity|].
  cbn [world trace]. rewrite <- ?app_assoc. reflexivity.
Qed.

(** The theorem of X8 at "server.js" for the server that refuses the
    handshake: the run stops at [initialize], with its exception, and the
    tools are not listed. *)
Lemma connect_stops_at_the_first_failure_witness :
  endswith «"server.js"» «".py"» || endswith «"server.js"» «".js"» = true
  /\ Refused.connect_to_server «"server.js"» (Demo.start [])
     = (Raise (OtherException «"handshake refused"»),
        MkState [] [EvSpawn «"node"» [«"server.js"»]; EvSession; EvInitialize])
  /\ exists r st',
       Refused.connect_to_server «"server.js"» (Demo.start []) = (r, st')
       /\ ((exists e w1,
               Demo.stdio_client (launch_command «"server.js"») [«"server.js"»]
                                 (world (Demo.start []))
               = (Raise e, w1)
               /\ r = Raise e
               /\ st' = MkState w1 (trace (Demo.start [])
                                    ++ firstn 1 (connect_calls «"server.js"»)))
           \/ (exists w1 e w2,
                  Demo.stdio_client (launch_command «"server.js"»)
                                    [«"server.js"»] (world (Demo.start []))
                  = (Ok tt, w1)
                  /\ Demo.client_session w1 = (Raise e, w2)
                  /\ r = Raise e
                  /\ st' = MkState w2 (trace (Demo.start [])
                                       ++ firstn 2 (connect_calls «"server.js"»)))
           \/ (exists w1 w2 e w3,
                  Demo.stdio_client (launch_command «"server.js"»)
                                    [«"server.js"»] (world (Demo.start []))
                  = (Ok tt, w1)
                  /\ Demo.client_session w1 = (Ok tt, w2)
                  /\ Refused.session_initialize w2 = (Raise e, w3)
                  /\ r = Raise e
                  /\ st' = MkState w3 (trace (Demo.start [])
                                       ++ firstn 3 (connect_calls «"server.js"»)))
           \/ (exists w1 w2 w3 e w4,
                  Demo.stdio_client (launch_command «"server.js"»)
                                    [«"server.js"»] (world (Demo.start []))
                  = (Ok tt, w1)
                  /\ Demo.client_session w1 = (Ok tt, w2)
                  /\ Refused.session_initialize w2 = (Ok tt, w3)
                  /\ Demo.session_list_tools w3 = (Raise e, w4)
                  /\ r = Raise e
                  /\ st' = MkState w4 (trace (Demo.start [])
                                       ++ connect_calls «"server.js"»))
           \/ (exists w1 w2 w3 tools w4,
                  Demo.stdio_client (launch_command «"server.js"»)
                                    [«"server.js"»] (world (Demo.start []))
                  = (Ok tt, w1)
                  /\ Demo.client_session w1 = (Ok tt, w2)
                  /\ Refused.session_initialize w2 = (Ok tt, w3)
                  /\ Demo.session_list_tools w3 = (Ok tools, w4)
                  /\ r = Ok tt
                  /\ st'
                     = MkState w4
                         (trace (Demo.start []) ++ connect_calls «"server.js"»
                          ++ [EvPrint
                                (nl ++ «"Connected to server with tools: "»
                                    ++ format_list Demo.repr_str
                                         (map tool_name tools))]))).
Proof.
  split; [reflexivity|]. split; [reflexivity|].
  apply (@connect_stops_at_the_first_failure
           Demo.World Demo.stdio_client Demo.client_session
           Refused.session_initialize Demo.session_list_tools Demo.repr_str
           «"server.js"» (Demo.start []) eq_refl).
Defined.

(** ** The loop at the end of the input *)



(** ** [main]: usage, construction, cleanup *)

(** X10.  [main] ends in one of four ways.  With fewer than two arguments
    it prints the usage line and exits with code 1, and nothing else
    happens: no client is built and nothing is closed.  Otherwise it builds
    the client first; when that raises, nothing is closed.  While the loop
    runs, nothing has been closed.  In every other case (connecting raised,
    the loop ended or raised, also when closing raises itself) the exit
    stack is closed exactly once, as the last step, after everything the
    client did. *)
Theorem cleanup_runs_exactly_once :
  forall World
    (client_init exit_stack_aclose : World -> outcome unit * World)
    (stdio_client : str -> list str -> World -> outcome unit * World)
    (client_session session_initialize : World -> outcome unit * World)
    (session_list_tools : World -> outcome (list ToolDescriptor) * World)
    (session_call_tool : str -> tool_args -> World -> outcome ToolResult * World)
    (generate_content : str -> World -> outcome str * World)
    (console_input : str -> World -> outcome str * World)
    (json_dumps : list ToolDescriptor -> str) (repr_str : str -> str)
    argv turns (ms : main_state World),
  exists r ms' added,
    main client_init exit_stack_aclose stdio_client client_session
         session_initialize session_list_tools session_call_tool
         generate_content console_input json_dumps repr_str argv turns ms
    = (r, ms')
    /\ main_trace ms' = main_trace ms ++ added
    /\ ((length argv < 2 /\ r = Ok (Exited 1)
         /\ added = [Client (EvPrint usage_line)])
        \/ (2 <= length argv /\ (exists e, r = Raise e)
            /\ added = [Construct])
        \/ (2 <= length argv /\ r = Ok InLoop
            /\ exists tr, added = Construct :: map Client tr)
        \/ (2 <= length argv /\ (r = Ok Returned \/ exists e, r = Raise e)
            /\ exists tr, added = Construct :: map Client tr ++ [Close])).
Proof.
  intros. unfold main.
  destruct (Nat.ltb_spec (length argv) 2) as [Short|Long].
  - unfold client_step, print, external. cbn [world trace map app].
    do 3 eexists. split; [reflexivity|]. split; [reflexivity|].
    left. auto.
  - unfold lifecycle, cleanup, finally_after_raise, client_step.
    destruct (client_init (main_world ms)) as [[[]|e] w1];
      cbn [main_world main_trace].
    2:{ do 3 eexists. split; [reflexivity|]. split; [reflexivity|].
        right. left. eauto. }
    destruct (connect_to_server stdio_client client_session
                session_initialize session_list_tools repr_str
                (nth 1 argv []) (MkState w1 [])) as [[[]|e] st2];
      cbn [main_world main_trace].
    2:{ unfold cleanup, lifecycle. cbn [main_world main_trace].
        destruct (exit_stack_aclose (world st2)) as [[[]|e'] w3];
          (do 3 eexists; split; [reflexivity|];
           split; [cbn [main_trace]; rewrite <- !app_assoc; reflexivity|];
           right; right; right;
           split; [assumption|]; split; [right; eauto|];
           exists (trace st2); reflexivity). }
    destruct (chat_loop_from_start session_list_tools session_call_tool
                generate_content console_input json_dumps repr_str turns
                (MkState (world st2) [])) as [[[|]|e] st3];
      cbn [main_world main_trace].
    + do 3 eexists. split; [reflexivity|].
      split; [cbn [main_trace]; rewrite <- !app_assoc; reflexivity|].
      right. right. left. split; [assumption|]. split; [reflexivity|].
      exists (trace st2 ++ trace st3). rewrite map_app. reflexivity.
    + unfold cleanup, lifecycle. cbn [main_world main_trace].
      destruct (exit_stack_aclose (world st3)) as [[[]|e'] w4];
        (do 3 eexists; split; [reflexivity|];
         split; [cbn [main_trace]; rewrite <- !app_assoc; reflexivity|];
         right; right; right; split; [assumption|]).
      * split; [left; reflexivity|].
        exists (trace st2 ++ trace st3). rewrite map_app, <- app_assoc.
        reflexivity.
      * split; [right; eauto|].
        exists (trace st2 ++ trace st3). rewrite map_app, <- app_assoc.
        reflexivity.
    + unfold cleanup, lifecycle. cbn [main_world main_trace].
      destruct (exit_stack_aclose (world st3)) as [[[]|e'] w4];
        (do 3 eexists; split; [reflexivity|];
         split; [cbn [main_trace]; rewrite <- !app_assoc; reflexivity|];
         right; right; right; split; [assumption|];
         split; [right; eauto|];
         exists (trace st2 ++ trace st3); rewrite map_app, <- app_assoc;
         reflexivity).
Qed.

Lemma connect_unsupported
      World
      (stdio_client : str -> list str -> World -> outcome unit * World)
      (client_session session_initialize : World -> outcome unit * World)
      (session_list_tools : World -> outcome (list ToolDescriptor) * World)
      (repr_str : str -> str) path (st : state World) :
  endswith path «".py"» || endswith path «".js"» = false ->
  connect_to_server stdio_client client_session session_initialize
                    session_list_tools repr_str path st
  = (Raise (ValueError «"Server script must be a .py or .js file"»), st).
Proof. intros U. unfold connect_to_server. rewrite U. reflexivity. Qed.

(** X11.  Started with a script whose name ends neither in .py nor in .js,
    [main] builds the client, fails with the ValueError of
    [connect_to_server], and still closes the exit stack: the client does
    nothing in between, and the loop is never entered. *)
Theorem unsupported_script_is_cleaned_up
        World
        (client_init exit_stack_aclose : World -> outcome unit * World)
        (stdio_client : str -> list str -> World -> outcome unit * World)
        (client_session session_initialize : World -> outcome unit * World)
        (session_list_tools : World -> outcome (list ToolDescriptor) * World)
        (session_call_tool : str -> tool_args -> World -> outcome ToolResult * World)
        (generate_content : str -> World -> outcome str * World)
        (console_input : str -> World -> outcome str * World)
        (json_dumps : list ToolDescriptor -> str) (repr_str : str -> str)
        (argv : list str) turns (ms : main_state World) w1 w2 :
  2 <= length argv ->
  endswith (nth 1 argv []) «".py"» || endswith (nth 1 argv []) «".js"» = false ->
  client_init (main_world ms) = (Ok tt, w1) ->
  exit_stack_aclose w1 = (Ok tt, w2) ->
  main client_init exit_stack_aclose stdio_client client_session
       session_initialize session_list_tools session_call_tool
       generate_content console_input json_dumps repr_str argv turns ms
  = (Raise (ValueError «"Server script must be a .py or .js file"»),
     MkMain w2 (main_trace ms ++ [Construct; Close])).
Proof.
  intros Long U I C. unfold main.
  destruct (Nat.ltb_spec (length argv) 2) as [Short|_]; [lia|].
  unfold lifecycle at 1. rewrite I. cbn [main_world main_trace].
  unfold client_step. cbn [main_world main_trace].
  rewrite (connect_unsupported stdio_client client_session session_initialize
             session_list_tools repr_str _ (MkState w1 []) U).
  unfold finally_after_raise, cleanup, lifecycle.
  cbn [world trace map main_world main_trace]. rewrite C.
  rewrite app_nil_r, <- app_assoc. reflexivity.
Qed.

(** The theorem of X11 for "server.txt" in the scripted world. *)
Lemma unsupported_script_is_cleaned_up_witness :
  2 <= length [«"client.py"»; «"server.txt"»]
  /\ endswith (nth 1 [«"client.py"»; «"server.txt"»] []) «".py"»
     || endswith (nth 1 [«"client.py"»; «"server.txt"»] []) «".js"» = false
  /\ Startup.client_init (main_world (MkMain [«"quit"»] [])) = (Ok tt, [«"quit"»])
  /\ Startup.exit_stack_aclose [«"quit"»] = (Ok tt, [«"quit"»])
  /\ Startup.main [«"client.py"»; «"server.txt"»] 5 (MkMain [«"quit"»] [])
     = (Raise (ValueError «"Server script must be a .py or .js file"»),
        MkMain [«"quit"»] ([] ++ [Construct; Close])).
Proof.
  split; [simpl; lia|]. split; [reflexivity|]. split; [reflexivity|].
  split; [reflexivity|].
  apply (@unsupported_script_is_cleaned_up
           Demo.World Startup.client_init Startup.exit_stack_aclose
           Demo.stdio_client Demo.client_session Demo.session_initialize
           Demo.session_list_tools Demo.session_call_tool
           Demo.generate_content Demo.console_input Demo.json_dumps
           Demo.repr_str [«"client.py"»; «"server.txt"»] 5
           (MkMain [«"quit"»] []) [«"quit"»] [«"quit"»]);
    [simpl; lia | reflexivity | reflexivity | reflexivity].
Defined.

(** ** Triggers inside longer words *)

Lemma mentions_inside a kw b query :
  mentions (a ++ kw ++ b) query -> mentions kw query.
Proof.
  intros (pre & mid & suf & -> & E). unfold lower in E.
  apply map_eq_app in E. destruct E as (a' & t & -> & <- & E).
  apply map_eq_app in E. destruct E as (kw' & b' & -> & <- & <-).
  exists (pre ++ a'), kw', (b' ++ suf). split; [|reflexivity].
  now rewrite <- !app_assoc.
Qed.

(** X12.  The triggers are tested as substrings, so a word that merely
    contains one of them fires it.  A query that mentions a word containing
    employee or create is a create_employee request; a query that mentions
    a word containing add, sum or plus is never answered directly.  So a
    question about an address (which contains add) calls a tool, and
    without digits and without employee or create it calls sum_numbers with
    the defaults 5 and 3. *)
Theorem triggers_fire_inside_words :
  (forall a kw b query advisory,
      kw = «"employee"» \/ kw = «"create"» ->
      mentions (a ++ kw ++ b) query ->
      classify query advisory = InvokeCreateEmployee)
  /\ (forall a kw b query advisory,
         kw = «"add"» \/ kw = «"sum"» \/ kw = «"plus"» ->
         mentions (a ++ kw ++ b) query ->
         classify query advisory <> DirectAnswer)
  /\ (forall advisory,
         contains «"[Use tool: create_employee]"» advisory = false ->
         planned_call «"What is the address of the office?"» advisory
         = Ok (Some («"sum_numbers"»,
                     [(«"number1"», VInt 5); («"number2"», VInt 3)]))).
Proof.
  split; [|split].
  - intros a kw b query advisory K M. apply mentions_inside in M.
    unfold classify.
    assert (T : wants_create_employee query advisory = true).
    { apply wants_create_employee_spec. unfold create_employee_trigger.
      destruct K as [-> | ->]; auto. }
    rewrite T. reflexivity.
  - intros a kw b query advisory K M. apply mentions_inside in M.
    unfold classify.
    destruct (wants_create_employee query advisory); [discriminate|].
    assert (T : wants_sum_numbers query advisory = true).
    { apply wants_sum_numbers_spec. unfold sum_numbers_trigger.
      destruct K as [-> | [-> | ->]]; auto. }
    rewrite T. discriminate.
  - intros advisory H. unfold planned_call, classify, wants_create_employee.
    rewrite H.
    replace (contains «"employee"»
               (lower «"What is the address of the office?"»))
      with false by reflexivity.
    replace (contains «"create"»
               (lower «"What is the address of the office?"»))
      with false by reflexivity.
    cbn [orb]. unfold wants_sum_numbers.
    replace (contains «"add"» (lower «"What is the address of the office?"»))
      with true by reflexivity.
    rewrite orb_true_r. reflexivity.
Qed.

(** ** No gate before the call *)


